(** * pubtopdf: Publisher-to-HTML conversion through COM automation

    A shallow embedding of [convert.py], [convert_tree_to_pub.py] and the
    format-probing part of [explore_formats.py], with the properties of the
    conversion supervisor, of the tree walker, of the entry points and of
    the probing tool.

    Python objects are modelled as follows.
    - [str] is [string]; a character is a code point below 256.
    - [int] is [Z].
    - The filesystem is a finite map from path strings to nodes; a directory
      node carries its listing, as [os.listdir] returns it.
    - Stateful code is a state-and-exception monad over a [world] holding the
      filesystem, the process table, the history of automation calls and the
      two output streams.
    - The Publisher application, [pathlib]/[os.path] and [os.walk] are not part
      of the repository: they are parameters ([External], [PathLib]). *)

From stdpp Require Import gmap strings list fin_maps pretty.
From Stdlib Require Import ZArith Ascii String.

Open Scope string_scope.
Set Warnings "-register-all".

(** ** Python strings *)

Module PyStr.

Definition in_range (lo hi n : nat) : bool := (lo <=? n)%nat && (n <=? hi)%nat.

(** [str.lower] on one code point below 256: A-Z and the Latin-1 capitals
    (all of 0xC0-0xDE but the multiplication sign) move up by 32. *)
Definition char_lower (c : ascii) : ascii :=
  let n := nat_of_ascii c in
  if in_range 65 90 n || (in_range 192 222 n && negb (n =? 215)%nat)
  then ascii_of_nat (n + 32) else c.

(** [str.upper] on one code point below 256. Sharp s, y with diaeresis and
    the micro sign, whose capitals lie outside this range or are two
    letters long, are left as they are; none of them yields a letter of
    [MSPUB.EXE]. *)
Definition char_upper (c : ascii) : ascii :=
  let n := nat_of_ascii c in
  if in_range 97 122 n || (in_range 224 254 n && negb (n =? 247)%nat)
  then ascii_of_nat (n - 32) else c.

Fixpoint map_chars (f : ascii → ascii) (s : string) : string :=
  match s with
  | EmptyString => EmptyString
  | String c r => String (f c) (map_chars f r)
  end.

Definition lower : string → string := map_chars char_lower.
Definition upper : string → string := map_chars char_upper.

(** [s.endswith(suf)] *)
Definition endswith (s suf : string) : bool :=
  let n := String.length s in
  let m := String.length suf in
  (m <=? n)%nat && String.eqb (String.substring (n - m) m s) suf.

(** [s.startswith(pre)] *)
Definition startswith (s pre : string) : bool := String.prefix pre s.

(** [pat in s] *)
Definition contains (pat s : string) : bool :=
  match String.index 0 pat s with Some _ => true | None => false end.

End PyStr.

(** ** Python values and exceptions *)

(** The values an exception's [excepinfo] attribute is made of.
    [pywintypes.com_error] carries [None] there, or a tuple
    [(wcode, source, text, helpFile, helpId, scode)]. *)
Inductive pyval : Type :=
  | PyNone
  | PyInt (z : Z)
  | PyStr (s : string)
  | PyTuple (items : list pyval).

Definition join_with (sep : string) (l : list string) : string :=
  match l with
  | [] => EmptyString
  | x :: r => fold_left (λ acc y, acc +:+ sep +:+ y) r x
  end.

(** [repr(v)] and [str(v)]; quoting of a string inside a tuple is by single
    quotes, without escapes. *)
Fixpoint pyval_repr (v : pyval) : string :=
  match v with
  | PyNone => "None"
  | PyInt z => pretty z
  | PyStr s => "'" +:+ s +:+ "'"
  | PyTuple [x] => "(" +:+ pyval_repr x +:+ ",)"
  | PyTuple l => "(" +:+ join_with ", " (map pyval_repr l) +:+ ")"
  end.

Definition pyval_str (v : pyval) : string :=
  match v with
  | PyStr s => s
  | _ => pyval_repr v
  end.

Inductive exn_class : Type :=
  | RuntimeError | FileNotFoundError | FileExistsError | NotADirectoryError
  | ValueError | TypeError | AttributeError | ComError | OtherError.

(** An exception object: its class, [str(e)], and the [excepinfo] attribute
    when [hasattr(e, 'excepinfo')]. *)
Record exn : Type := Exn {
  exn_class_of : exn_class;
  exn_str : string;
  excepinfo : option pyval
}.

Definition raise_of (c : exn_class) (msg : string) : exn := Exn c msg None.

Inductive outcome (A : Type) : Type :=
  | Return (a : A)
  | Raise (e : exn).
Arguments Return {A} a.
Arguments Raise {A} e.

(** [len(v)] *)
Definition py_len (v : pyval) : outcome nat :=
  match v with
  | PyTuple l => Return (List.length l)
  | PyStr s => Return (String.length s)
  | PyNone => Raise (raise_of TypeError "object of type 'NoneType' has no len()")
  | PyInt _ => Raise (raise_of TypeError "object of type 'int' has no len()")
  end.

(** [v[i]], for an index already known to be below [len(v)] *)
Definition py_index (v : pyval) (i : nat) : pyval :=
  match v with
  | PyTuple l => default PyNone (l !! i)
  | PyStr s => PyStr (String.substring i 1 s)
  | _ => PyNone
  end.

(** [v != z] for an integer literal [z] *)
Definition py_ne_int (v : pyval) (z : Z) : bool :=
  match v with
  | PyInt x => negb (x =? z)%Z
  | _ => true
  end.

(** ** The filesystem, the process table and the world *)

Inductive node : Type :=
  | File
  | Dir (entries : list string).

Abbreviation fs_state := (gmap string node).

(** A process as [psutil] shows it, with what [proc.kill()] does to it. *)
Inductive kill_effect : Type := KillOk | KillNoSuchProcess | KillAccessDenied.

Record process : Type := Process {
  proc_pid : nat;
  proc_name : string;
  proc_kill : kill_effect
}.

(** The calls made on the automation interface. Objects are named by the
    numbers the application hands out. *)
Inductive com_call : Type :=
  | EnsureDispatch (progid : string)
  | SetAutomationSecurity (publisher : nat) (level : Z)
  | Open (publisher : nat) (path : string) (args : list bool)
  | SaveAs (doc : nat) (path : string) (format_constant : Z)
  | Close (doc : nat)
  | Quit (publisher : nat).

Record world : Type := World {
  w_fs : fs_state;
  w_procs : list process;
  w_calls : list com_call;
  w_walks : list string;
  w_mkdirs : list string;
  w_out : list string;
  w_err : list string
}.

(** What the application answers to a call: an exception or a value
    ([None] or an object), and the filesystem and process table it leaves.
    The answer may depend on every call made before. *)
Record External : Type := {
  respond : com_call → list com_call → fs_state → list process →
            (exn + option nat) * fs_state * list process
}.

(** The path functions of [pathlib] and [os.path], and [os.walk]. *)
Record PathLib : Type := {
  path_resolve : string → string;            (* str(Path(p).resolve()) *)
  path_absolute : string → string;           (* str(Path(p).absolute()) *)
  path_join : string → string → string;      (* os.path.join(a, b), a / b *)
  path_basename : string → string;           (* os.path.basename(p) *)
  path_splitext_root : string → string;      (* os.path.splitext(p)[0] *)
  path_stem : string → string;               (* Path(p).stem *)
  path_suffix : string → string;             (* Path(p).suffix *)
  path_strip_suffix : string → string;       (* str(Path(p).with_suffix('')) *)
  path_relative_to : string → string → string; (* Path(p).relative_to(q) *)
  (* glob.glob(pattern) *)
  glob_glob : fs_state → string → list string;
  (* the (root, dirs, files) triples os.walk(top) yields *)
  os_walk : fs_state → string → list (string * list string * list string)
}.

(** ** The state-and-exception monad *)

Definition M (S A : Type) : Type := S → outcome A * S.

Definition ret {S A} (a : A) : M S A := λ s, (Return a, s).
Definition throw {S A} (e : exn) : M S A := λ s, (Raise e, s).
Definition bind {S A B} (m : M S A) (k : A → M S B) : M S B :=
  λ s, match m s with
       | (Return a, s') => k a s'
       | (Raise e, s') => (Raise e, s')
       end.

Notation "'let!' x ':=' m 'in' k" := (bind m (λ x, k))
  (at level 10, x pattern, m at level 100, k at level 200).
Notation "m '>>' k" := (bind m (λ _, k))
  (at level 90, right associativity).

Definition get {S} : M S S := λ s, (Return s, s).
Definition modify {S} (f : S → S) : M S unit := λ s, (Return tt, f s).

(** [try: m except Exception as e: h e] *)
Definition try_except {S A} (m : M S A) (h : exn → M S A) : M S A :=
  λ s, match m s with
       | (Return a, s') => (Return a, s')
       | (Raise e, s') => h e s'
       end.

(** [try: m finally: f]; an exception raised by [f] replaces the outcome. *)
Definition try_finally {S A} (m : M S A) (f : M S unit) : M S A :=
  λ s, match m s with
       | (r, s') =>
           match f s' with
           | (Return _, s'') => (r, s'')
           | (Raise e, s'') => (Raise e, s'')
           end
       end.

Definition print (line : string) : M world unit :=
  modify (λ w, World (w_fs w) (w_procs w) (w_calls w) (w_walks w) (w_mkdirs w)
                     (w_out w ++ [line]) (w_err w)).

Definition eprint (line : string) : M world unit :=
  modify (λ w, World (w_fs w) (w_procs w) (w_calls w) (w_walks w) (w_mkdirs w)
                     (w_out w) (w_err w ++ [line])).

(** ** [os] and [os.path] on the filesystem map *)

Definition fs_exists (fs : fs_state) (p : string) : bool :=
  match fs !! p with Some _ => true | None => false end.

Definition fs_isdir (fs : fs_state) (p : string) : bool :=
  match fs !! p with Some (Dir _) => true | _ => false end.

Definition fs_isfile (fs : fs_state) (p : string) : bool :=
  match fs !! p with Some File => true | _ => false end.

Definition fs_listdir (fs : fs_state) (p : string) : outcome (list string) :=
  match fs !! p with
  | Some (Dir l) => Return l
  | Some File => Raise (raise_of NotADirectoryError p)
  | None => Raise (raise_of FileNotFoundError p)
  end.

Definition os_path_exists (p : string) : M world bool :=
  λ w, (Return (fs_exists (w_fs w) p), w).
Definition os_path_isdir (p : string) : M world bool :=
  λ w, (Return (fs_isdir (w_fs w) p), w).
Definition os_listdir (p : string) : M world (list string) :=
  λ w, (fs_listdir (w_fs w) p, w).

(** [os.makedirs(p, exist_ok=True)]: nothing to do for a directory, an error
    for a file in the way, otherwise the directory is created empty. Only the
    entry of [p] itself is tracked. *)
Definition os_makedirs (p : string) : M world unit :=
  λ w,
    let w' := World (w_fs w) (w_procs w) (w_calls w) (w_walks w)
                    (w_mkdirs w ++ [p]) (w_out w) (w_err w) in
    match w_fs w !! p with
    | Some (Dir _) => (Return tt, w')
    | Some File => (Raise (raise_of FileExistsError p), w')
    | None =>
        (Return tt,
         World (<[p := Dir []]> (w_fs w)) (w_procs w) (w_calls w) (w_walks w)
               (w_mkdirs w ++ [p]) (w_out w) (w_err w))
    end.

(** ** convert.py *)

(** [validate_html(html_path)] *)
Definition validate_html (html_path : string) : M world unit :=
  let html_file := html_path +:+ ".htm" in
  let! e := os_path_exists html_file in
  if negb e then
    throw (raise_of RuntimeError ("HTML file was not created at " +:+ html_file))
  else
    let files_dir := html_path +:+ "_files" in
    let! e := os_path_exists files_dir in
    let! d := (if negb e then ret false else os_path_isdir files_dir) in
    if negb e || negb d then
      throw (raise_of RuntimeError
               ("Supporting files directory not found at " +:+ files_dir))
    else
      let! l := os_listdir files_dir in
      match l with
      | [] => throw (raise_of RuntimeError
                       ("Supporting files directory is empty: " +:+ files_dir))
      | _ =>
          print "HTML validation successful:" >>
          print ("- Main file: " +:+ html_file) >>
          print ("- Supporting files: " +:+ files_dir)
      end.

(** The value of [a and b and c] in [check_output_exists]: [False], or the
    listing when the first two operands are true. *)
Inductive check_value : Type :=
  | CheckFalse
  | CheckListing (l : list string).

Definition truthy (v : check_value) : bool :=
  match v with
  | CheckFalse => false
  | CheckListing [] => false
  | CheckListing (_ :: _) => true
  end.

(** [check_output_exists(output_base)] *)
Definition check_output_exists (output_base : string) : M world check_value :=
  let html_file := output_base +:+ ".htm" in
  let files_dir := output_base +:+ "_files" in
  let! e := os_path_exists html_file in
  if negb e then ret CheckFalse
  else
    let! d := os_path_isdir files_dir in
    if negb d then ret CheckFalse
    else
      let! l := os_listdir files_dir in
      ret (CheckListing l).

(** [time.sleep] has no counterpart: the model has no clock. *)

Definition is_mspub (p : process) : bool :=
  PyStr.contains "MSPUB.EXE" (PyStr.upper (proc_name p)).

Definition remove_process (pid : nat) : M world unit :=
  modify (λ w, World (w_fs w)
                     (filter (λ p, proc_pid p ≠ pid) (w_procs w))
                     (w_calls w) (w_walks w) (w_mkdirs w) (w_out w) (w_err w)).

(** The first loop of [kill_publisher_processes], over the processes
    [psutil.process_iter] listed. A process that is killed, or found gone,
    leaves the table; [AccessDenied] leaves it there. *)
Fixpoint kill_each (ps : list process) (killed : bool) : M world bool :=
  match ps with
  | [] => ret killed
  | p :: r =>
      if is_mspub p then
        print ("Killing Publisher process " +:+ pretty (proc_pid p) +:+ "...") >>
        match proc_kill p with
        | KillOk => remove_process (proc_pid p) >> kill_each r true
        | KillNoSuchProcess => remove_process (proc_pid p) >> kill_each r killed
        | KillAccessDenied => kill_each r killed
        end
      else kill_each r killed
  end.

(** [kill_publisher_processes()] *)
Definition kill_publisher_processes : M world bool :=
  let! w := get in
  let! killed := kill_each (w_procs w) false in
  if killed then
    let! w' := get in
    if existsb is_mspub (w_procs w') then
      print "Warning: Publisher process still running" >> ret false
    else ret true
  else ret true.

Section Convert.

Context (pl : PathLib) (ext : External).

(** [check_output_files(base_path)] *)
Definition check_output_files (base_path : string) : M world (list string) :=
  let base_path := path_strip_suffix pl base_path in
  let pattern := base_path +:+ "*" in
  λ w, (Return (glob_glob pl (w_fs w) pattern), w).

(** One call on the automation interface: the application answers, and the
    call is appended to the history. *)
Definition com (c : com_call) : M world (option nat) :=
  λ w,
    match respond ext c (w_calls w) (w_fs w) (w_procs w) with
    | (r, fs', ps') =>
        let w' := World fs' ps' (w_calls w ++ [c]) (w_walks w) (w_mkdirs w)
                        (w_out w) (w_err w) in
        match r with
        | inl e => (Raise e, w')
        | inr v => (Return v, w')
        end
    end.

(** [obj.meth(...)], where [obj] may be [None]. *)
Definition method (obj : option nat) (meth : string) (c : nat → com_call)
  : M world (option nat) :=
  match obj with
  | Some h => com (c h)
  | None => throw (raise_of AttributeError
                     ("'NoneType' object has no attribute '" +:+ meth +:+ "'"))
  end.

(** What an attempt ended with. *)
Inductive attempt_result : Type :=
  | Succeeded
  | Failed (e : exn).

(** The local variables of [convert_pub_to_html] inside the retry loop,
    around the world. [f_history] is bookkeeping and not a variable of the
    source: one entry per attempt made, in order. *)
Record frame : Type := Frame {
  f_world : world;
  f_publisher : option nat;
  f_doc : option nat;
  f_last_error : option exn;
  f_history : list attempt_result
}.

Definition liftw {A} (m : M world A) : M frame A :=
  λ fr, match m (f_world fr) with
        | (r, w') => (r, Frame w' (f_publisher fr) (f_doc fr)
                               (f_last_error fr) (f_history fr))
        end.

Definition set_publisher (v : option nat) : M frame unit :=
  modify (λ fr, Frame (f_world fr) v (f_doc fr) (f_last_error fr) (f_history fr)).
Definition set_doc (v : option nat) : M frame unit :=
  modify (λ fr, Frame (f_world fr) (f_publisher fr) v (f_last_error fr) (f_history fr)).
Definition set_last_error (e : exn) : M frame unit :=
  modify (λ fr, Frame (f_world fr) (f_publisher fr) (f_doc fr) (Some e) (f_history fr)).
Definition record_attempt (r : attempt_result) : M frame unit :=
  modify (λ fr, Frame (f_world fr) (f_publisher fr) (f_doc fr) (f_last_error fr)
                      (f_history fr ++ [r])).

Definition print_each (prefix : string) (l : list string) : M world unit :=
  fold_right (λ f k, print (prefix +:+ f) >> k) (ret tt) l.

Section Attempt.

Variables (pub_path output_base : string) (format_constant max_retries : Z).

(** The [try] block, lines 131-171. *)
Definition attempt_try (attempt : nat) : M frame string :=
  (if (0 <? attempt)%nat then
     liftw (print EmptyString) >>
     liftw (print ("Retry attempt " +:+ pretty (attempt + 1)%nat +:+ " of "
                     +:+ pretty max_retries +:+ "...")) >>
     let! ok := liftw kill_publisher_processes in
     if negb ok then
       liftw (print "Warning: Could not kill all Publisher processes")
     else ret tt
   else ret tt) >>
  liftw (print "Initializing Publisher...") >>
  let! publisher := liftw (com (EnsureDispatch "Publisher.Application")) in
  set_publisher publisher >>
  liftw (method publisher "AutomationSecurity"
                (λ h, SetAutomationSecurity h 3)) >>
  liftw (print "Opening document...") >>
  let abs_pub_path := path_absolute pl pub_path in
  let! doc := liftw (method publisher "Open"
                            (λ h, Open h abs_pub_path [false; false])) in
  set_doc doc >>
  liftw (print "Saving as HTML...") >>
  let abs_output_base := path_absolute pl output_base in
  liftw (method doc "SaveAs" (λ h, SaveAs h abs_output_base format_constant)) >>
  liftw (print "Checking created files...") >>
  let! created_files := liftw (check_output_files output_base) in
  liftw (match created_files with
         | [] => print "No files were created"
         | _ => print "Created files:" >> print_each "- " created_files
         end) >>
  liftw (print "Validating HTML...") >>
  liftw (validate_html output_base) >>
  ret (output_base +:+ ".htm").

(** [if doc: doc.Close()] then [if publisher: publisher.Quit()] *)
Definition release : M frame unit :=
  let! fr := get in
  (match f_doc fr with
   | Some d => liftw (com (Close d)) >> ret tt
   | None => ret tt
   end) >>
  (match f_publisher fr with
   | Some p => liftw (com (Quit p)) >> ret tt
   | None => ret tt
   end).

(** How the loop goes on after an attempt. *)
Inductive control : Type :=
  | CReturn (path : string)
  | CBreak
  | CContinue.

(** The [except Exception as e] block, lines 173-195. *)
Definition attempt_except (attempt : nat) (e : exn) : M frame control :=
  set_last_error e >>
  record_attempt (Failed e) >>
  liftw (eprint ("Error on attempt " +:+ pretty (attempt + 1)%nat +:+ ": "
                   +:+ exn_str e)) >>
  (match excepinfo e with
   | Some v => liftw (eprint ("Exception info: " +:+ pyval_str v))
   | None => ret tt
   end) >>
  try_except release (λ _, ret tt) >>
  match excepinfo e with
  | Some v =>
      let! n := (λ fr, (py_len v, fr)) in
      let error_code := if (5 <? n)%nat then py_index v 5 else PyNone in
      if py_ne_int error_code (-2147221457) then ret CBreak
      else ret CContinue
  | None => ret CBreak
  end.

(** The [finally] block, lines 197-206. *)
Definition attempt_finally : M frame unit :=
  liftw (print "Cleaning up...") >>
  try_except release
    (λ e, liftw (eprint ("Warning: Cleanup failed: " +:+ exn_str e))).

(** One iteration of the loop body. *)
Definition attempt_once (attempt : nat) : M frame control :=
  set_publisher None >>
  set_doc None >>
  try_finally
    (try_except
       (let! p := attempt_try attempt in
        record_attempt Succeeded >> ret (CReturn p))
       (attempt_except attempt))
    attempt_finally.

(** The [raise] after the loop, line 209. *)
Definition exhausted : M frame string :=
  let! fr := get in
  throw (raise_of RuntimeError
           ("Failed to convert file after " +:+ pretty max_retries
              +:+ " attempts: "
              +:+ match f_last_error fr with
                  | Some e => exn_str e
                  | None => "None"
                  end)).

(** [for attempt in range(max_retries)], from [attempt] on with [n]
    iterations left, then the final [raise]. *)
Fixpoint attempts_from (n attempt : nat) : M frame string :=
  match n with
  | O => exhausted
  | S n' =>
      let! c := attempt_once attempt in
      match c with
      | CReturn p => ret p
      | CBreak => exhausted
      | CContinue => attempts_from n' (S attempt)
      end
  end.

Definition retry_loop : M frame string :=
  attempts_from (Z.to_nat max_retries) 0.

End Attempt.

Definition initial_frame (w : world) : frame := Frame w None None None [].

(** [convert_pub_to_html(pub_path, output_dir, format_constant, max_retries)]
    up to the loop: the precondition checks and the short circuit. The
    result is the output path when the file is already converted, and
    otherwise the [output_base] the loop is to work on. *)
Definition convert_prelude (pub_path output_dir : string)
  : M world (string + string) :=
  let pub_path := path_resolve pl pub_path in
  let output_dir := path_resolve pl output_dir in
  print ("Input file path: " +:+ pub_path) >>
  print ("Output directory: " +:+ output_dir) >>
  let! e := os_path_exists pub_path in
  if negb e then
    throw (raise_of FileNotFoundError ("Publisher file not found: " +:+ pub_path))
  else if negb (PyStr.endswith (PyStr.lower pub_path) ".pub") then
    throw (raise_of ValueError "File must have .pub extension")
  else
    os_makedirs output_dir >>
    let base_name := path_splitext_root pl (path_basename pl pub_path) in
    let output_base := path_join pl output_dir base_name in
    print ("Output base path: " +:+ output_base) >>
    let! done := check_output_exists output_base in
    if truthy done then
      print ("File already converted, skipping: " +:+ output_base +:+ ".htm") >>
      ret (inl (output_base +:+ ".htm"))
    else ret (inr output_base).

(** The whole function, with the frame it ends in. *)
Definition convert_pub_to_html_frame
    (pub_path output_dir : string) (format_constant max_retries : Z)
  : world → outcome string * frame :=
  λ w,
    match convert_prelude pub_path output_dir w with
    | (Raise e, w') => (Raise e, initial_frame w')
    | (Return (inl p), w') => (Return p, initial_frame w')
    | (Return (inr output_base), w') =>
        retry_loop (path_resolve pl pub_path) output_base
                   format_constant max_retries (initial_frame w')
    end.

Definition convert_pub_to_html
    (pub_path output_dir : string) (format_constant max_retries : Z)
  : M world string :=
  λ w,
    match convert_pub_to_html_frame pub_path output_dir format_constant
                                    max_retries w with
    | (r, fr) => (r, f_world fr)
    end.

End Convert.

(** ** convert_tree_to_pub.py *)

Section Tree.

Context (pl : PathLib) (ext : External).

Definition is_pub (f : string) : bool := PyStr.endswith (PyStr.lower f) ".pub".

(** [os.walk(top)], consumed by a [for] loop. The triples are those of the
    tree as it is when the loop starts: conversions write under the output
    root, and the input tree is taken not to change while it is walked. Each
    walk is noted in [w_walks]. *)
Definition walk (top : string)
  : M world (list (string * list string * list string)) :=
  λ w, (Return (os_walk pl (w_fs w) top),
        World (w_fs w) (w_procs w) (w_calls w) (w_walks w ++ [top])
              (w_mkdirs w) (w_out w) (w_err w)).

(** The number of matching files in the triples of a walk. *)
Definition count_matching (triples : list (string * list string * list string)) : Z :=
  fold_left (λ count t, (count + Z.of_nat (List.length (filter is_pub t.2)))%Z)
            triples 0%Z.

(** [count_pub_files(input_path)] *)
Definition count_pub_files (input_path : string) : M world Z :=
  let input_path := path_resolve pl input_path in
  print "Scanning directory structure..." >>
  let! triples := walk input_path in
  ret (count_matching triples).

(** The two counters of pass 2. [visited] is bookkeeping and not a variable
    of the source: the [output_base] of every matching file reached, with the
    filesystem as it was when the file was reached. *)
Record tally : Type := Tally {
  files_converted : Z;
  files_skipped : Z;
  visited : list (string * fs_state)
}.

Definition note_visit (output_base : string) (t : tally) : M world tally :=
  λ w, (Return (Tally (files_converted t) (files_skipped t)
                      (visited t ++ [(output_base, w_fs w)])), w).

(** [for file in pub_files], lines 60-91. The clock readings and the time
    estimate only feed two printed fields, which are left out. *)
Fixpoint convert_files (total_files : Z) (current_dir out_dir : string)
    (pub_files : list string) (t : tally) : M world tally :=
  match pub_files with
  | [] => ret t
  | file :: rest =>
      let pub_file := path_join pl current_dir file in
      let base_name := path_stem pl file in
      let output_base := path_join pl out_dir base_name in
      let! t := note_visit output_base t in
      let! done := check_output_exists output_base in
      if truthy done then
        let t := Tally (files_converted t) (files_skipped t + 1) (visited t) in
        print EmptyString >>
        print ("Skipping already converted file (" +:+ pretty (files_skipped t)
                 +:+ " skipped): " +:+ pub_file) >>
        convert_files total_files current_dir out_dir rest t
      else
        let t := Tally (files_converted t + 1) (files_skipped t) (visited t) in
        let files_processed := (files_converted t + files_skipped t)%Z in
        print EmptyString >>
        print ("Converting file " +:+ pretty files_processed +:+ " of "
                 +:+ pretty total_files +:+ ": " +:+ pub_file) >>
        print ("Progress: " +:+ pretty (files_converted t) +:+ " converted, "
                 +:+ pretty (files_skipped t) +:+ " skipped") >>
        try_except
          (let! html_path := convert_pub_to_html pl ext pub_file out_dir 7 3 in
           print ("Converted to: " +:+ html_path))
          (λ e, eprint ("Error converting " +:+ pub_file +:+ ": " +:+ exn_str e)) >>
        convert_files total_files current_dir out_dir rest t
  end.

(** [for root, dirs, files in os.walk(input_path)], lines 45-91 *)
Fixpoint convert_dirs (total_files : Z) (input_path output_path : string)
    (triples : list (string * list string * list string)) (t : tally)
  : M world tally :=
  match triples with
  | [] => ret t
  | (root, _, files) :: rest =>
      let current_dir := root in
      print EmptyString >>
      print ("Entering directory: " +:+ current_dir) >>
      let pub_files := filter is_pub files in
      let! t :=
        (match pub_files with
         | [] => ret t
         | _ =>
             let rel_path := path_relative_to pl current_dir input_path in
             let out_dir := path_join pl output_path rel_path in
             os_makedirs out_dir >>
             convert_files total_files current_dir out_dir pub_files t
         end) in
      convert_dirs total_files input_path output_path rest t
  end.

(** [convert_directory(input_path, output_path)], with the bookkeeping of
    the visits. *)
Definition convert_directory_tally (input_path output_path : string)
  : M world tally :=
  let input_path := path_resolve pl input_path in
  let output_path := path_resolve pl output_path in
  let! e := os_path_exists input_path in
  if negb e then
    throw (raise_of FileNotFoundError ("Input directory not found: " +:+ input_path))
  else
    let! total_files := count_pub_files input_path in
    print EmptyString >>
    print ("Found " +:+ pretty total_files +:+ " Publisher files to convert") >>
    if (total_files =? 0)%Z then
      print "No files to convert" >> ret (Tally 0 0 [])
    else
      let! triples := walk input_path in
      let! t := convert_dirs total_files input_path output_path triples
                             (Tally 0 0 []) in
      print EmptyString >>
      print "Conversion complete:" >>
      print ("Total files: " +:+ pretty total_files) >>
      print ("Converted: " +:+ pretty (files_converted t)) >>
      print ("Skipped: " +:+ pretty (files_skipped t)) >>
      ret t.

Definition convert_directory (input_path output_path : string)
  : M world (Z * Z) :=
  let! t := convert_directory_tally input_path output_path in
  ret (files_converted t, files_skipped t).

End Tree.

(** ** explore_formats.py *)

(** What [PyPDF2] and [mimetypes] tell about a file. *)
Record Probe : Type := {
  pdf_pages : fs_state → string → option nat;  (* len(PdfReader(p).pages), if it reads *)
  guess_type : string → option string          (* mimetypes.guess_type(p)[0] *)
}.

Section Explore.

Context (pl : PathLib) (ext : External) (pr : Probe).

(** [detect_file_type(filepath)] *)
Definition detect_file_type (filepath : string) : M world string :=
  let! d := os_path_isdir filepath in
  if d then ret "Directory"
  else
    let ext_ := PyStr.lower (path_suffix pl filepath) in
    let mime_type := guess_type pr filepath in
    if String.eqb ext_ ".pdf" then
      λ w, (Return match pdf_pages pr (w_fs w) filepath with
                   | Some n => "Valid PDF (" +:+ pretty n +:+ " pages)"
                   | None => "Invalid PDF"
                   end, w)
    else if String.eqb ext_ ".htm" || String.eqb ext_ ".html" then ret "HTML document"
    else if String.eqb ext_ ".txt" then ret "Text document"
    else if String.eqb ext_ ".rtf" then ret "Rich Text document"
    else if String.eqb ext_ ".pub" then ret "Publisher document"
    else match mime_type with
         | Some m => if String.eqb m EmptyString then ret ("Unknown (" +:+ ext_ +:+ ")") else ret m
         | None => ret ("Unknown (" +:+ ext_ +:+ ")")
         end.

(** [os.unlink(path)] and [shutil.rmtree(path)] for the entry [item] of
    [output_dir]: the entry leaves the map and the listing of the directory.
    Entries below a removed directory are not tracked. *)
Definition remove_entry (output_dir item : string) : M world unit :=
  modify (λ w,
    let path := path_join pl output_dir item in
    let fs := delete path (w_fs w) in
    let fs := match fs !! output_dir with
              | Some (Dir l) =>
                  <[output_dir := Dir (filter (λ x, x ≠ item) l)]> fs
              | _ => fs
              end in
    World fs (w_procs w) (w_calls w) (w_walks w) (w_mkdirs w) (w_out w) (w_err w)).

(** [clean_output_dir(output_dir)] *)
Definition clean_output_dir (output_dir : string) : M world unit :=
  let! items := os_listdir output_dir in
  fold_right
    (λ item k,
       (if String.eqb item ".gitkeep" then ret tt
        else
          let path := path_join pl output_dir item in
          λ w, if fs_isfile (w_fs w) path || fs_isdir (w_fs w) path
               then remove_entry output_dir item w
               else (Return tt, w)) >> k)
    (ret tt) items.

(** The dictionary [result] of [test_format_constant]. *)
Record probe_result : Type := ProbeResult {
  r_constant : Z;
  r_files : list (string * string);
  r_error : option string
}.

(** The [try] block of [test_format_constant], lines 72-104 *)
Definition probe_try (pub_path output_dir : string) (format_constant : Z)
  : M frame (list (string * string)) :=
  liftw (clean_output_dir output_dir) >>
  let! publisher := liftw (com ext (EnsureDispatch "Publisher.Application")) in
  set_publisher publisher >>
  let abs_pub_path := path_absolute pl pub_path in
  let! doc := liftw (method ext publisher "Open" (λ h, Open h abs_pub_path [])) in
  set_doc doc >>
  let base_name := path_stem pl pub_path in
  let output_path := path_join pl (path_absolute pl output_dir) base_name in
  liftw (print EmptyString) >>
  liftw (print "Debug - SaveAs parameters:") >>
  liftw (print ("  Path: " +:+ output_path)) >>
  liftw (print ("  Format constant: " +:+ pretty format_constant
                  +:+ " (type: <class 'int'>)")) >>
  liftw (method ext doc "SaveAs" (λ h, SaveAs h output_path format_constant)) >>
  let! items := liftw (os_listdir output_dir) in
  fold_right
    (λ item k,
       if String.eqb item ".gitkeep" then k
       else
         let filepath := path_join pl output_dir item in
         let! filetype := liftw (detect_file_type filepath) in
         let! created_files := k in
         ret ((item, filetype) :: created_files))
    (ret []) items.

(** The [except] block, lines 106-110: the text stored under ['error']. *)
Definition probe_error (e : exn) : string :=
  match excepinfo e with
  | Some v => "COM Error: " +:+ pyval_str v
  | None => exn_str e
  end.

(** [test_format_constant(pub_path, output_dir, format_constant)] *)
Definition test_format_constant (pub_path output_dir : string)
    (format_constant : Z) : M world probe_result :=
  λ w,
    match
      try_finally
        (try_except
           (let! created_files := probe_try pub_path output_dir format_constant in
            ret (ProbeResult format_constant created_files None))
           (λ e, ret (ProbeResult format_constant [] (Some (probe_error e)))))
        (try_except (release ext) (λ _, ret tt))
        (initial_frame w)
    with
    | (r, fr) => (r, f_world fr)
    end.

(** The test of line 145:
    [result['files'] or result['error'] != "COM Error: None"] *)
Definition interesting (r : probe_result) : bool :=
  match r_files r with
  | _ :: _ => true
  | [] =>
      match r_error r with
      | None => true
      | Some s => negb (String.eqb s "COM Error: None")
      end
  end.

(** [range(start, stop)] *)
Definition py_range (start stop : Z) : list Z :=
  map (λ i, (start + Z.of_nat i)%Z) (seq 0 (Z.to_nat (stop - start))).

(** The loop of [explore_format_constants], lines 140-146: the list
    [results] it builds. *)
Fixpoint probe_each (pub_path output_dir : string) (constants : list Z)
    (results : list probe_result) : M world (list probe_result) :=
  match constants with
  | [] => ret results
  | i :: rest =>
      let! result := test_format_constant pub_path output_dir i in
      probe_each pub_path output_dir rest
                 (if interesting result then results ++ [result] else results)
  end.

(** [explore_format_constants(pub_path, output_dir, start, end)], without
    the table of the results, which it only prints. *)
Definition explore_format_constants (pub_path output_dir : string)
    (start end_ : Z) : M world (list probe_result) :=
  print ("Testing format constants " +:+ pretty start +:+ " through "
           +:+ pretty end_ +:+ "...") >>
  print ("Input file: " +:+ pub_path) >>
  print ("Output directory: " +:+ output_dir) >>
  let! results := probe_each pub_path output_dir (py_range start (end_ + 1)) [] in
  clean_output_dir output_dir >>
  ret results.

End Explore.

(** ** A small concrete setting

    Paths separated by a slash; an application that can be told how each
    call ends. Used to run the definitions on concrete inputs. *)

Module Demo.

Fixpoint last_index_of (c : ascii) (s : string) (i : nat) (acc : option nat)
  : option nat :=
  match s with
  | EmptyString => acc
  | String x r =>
      last_index_of c r (S i) (if Ascii.eqb x c then Some i else acc)
  end.

Definition basename (p : string) : string :=
  match last_index_of "/" p 0 None with
  | Some i => String.substring (S i) (String.length p - S i) p
  | None => p
  end.

(** The part before the last dot of the last component, when that dot is
    not the component's first character. *)
Definition strip_suffix (p : string) : string :=
  let b := basename p in
  match last_index_of "." b 0 None with
  | Some (S i) =>
      String.substring 0 (String.length p - (String.length b - S i)) p
  | _ => p
  end.

Definition suffix (p : string) : string :=
  let b := basename p in
  match last_index_of "." b 0 None with
  | Some (S i) => String.substring (S i) (String.length b - S i) b
  | _ => EmptyString
  end.

Definition join (a b : string) : string :=
  if String.eqb b "." then a else a +:+ "/" +:+ b.

Definition relative_to (p q : string) : string :=
  if String.eqb p q then "."
  else String.substring (S (String.length q))
                        (String.length p - S (String.length q)) p.

(** One level of [os.walk]: the directory itself, with every entry that is
    not a directory among the files. *)
Definition walk_flat (fs : fs_state) (top : string)
  : list (string * list string * list string) :=
  match fs !! top with
  | Some (Dir l) =>
      [(top, filter (λ n, fs_isdir fs (join top n) = true) l,
             filter (λ n, fs_isdir fs (join top n) = false) l)]
  | _ => []
  end.

Definition pathlib : PathLib := {|
  path_resolve := λ p, p;
  path_absolute := λ p, p;
  path_join := join;
  path_basename := basename;
  path_splitext_root := strip_suffix;
  path_stem := λ p, strip_suffix (basename p);
  path_suffix := suffix;
  path_strip_suffix := strip_suffix;
  path_relative_to := relative_to;
  glob_glob := λ fs pattern,
    let stem := String.substring 0 (String.length pattern - 1) pattern in
    filter (λ k, PyStr.startswith k stem = true) (map fst (map_to_list fs));
  os_walk := walk_flat
|}.

(** The error Publisher reports when a modal dialog blocks automation. *)
Definition modal_dialog_error : exn :=
  Exn ComError "(-2147352567, 'Exception occurred.', (0, 'Microsoft Publisher', 'Publisher cannot complete the operation.', None, 0, -2147221457), None)"
      (Some (PyTuple [PyInt 0; PyStr "Microsoft Publisher";
                      PyStr "Publisher cannot complete the operation.";
                      PyNone; PyInt 0; PyInt (-2147221457)])).

(** Another automation error, with another code. *)
Definition other_com_error : exn :=
  Exn ComError "(-2147352567, 'Exception occurred.', (0, 'Microsoft Publisher', 'Publisher cannot save the file.', None, 0, -2147467259), None)"
      (Some (PyTuple [PyInt 0; PyStr "Microsoft Publisher";
                      PyStr "Publisher cannot save the file.";
                      PyNone; PyInt 0; PyInt (-2147467259)])).

(** The error of a failed instance creation: no exception information. *)
Definition invalid_class_error : exn :=
  Exn ComError "(-2147221005, 'Invalid class string', None, None)" (Some PyNone).

(** An application that works: instance 1, document 2, and [SaveAs] writes
    the page and its resource directory. *)
Definition working : External := {|
  respond := λ c _ fs ps,
    match c with
    | EnsureDispatch _ => (inr (Some 1%nat), fs, ps)
    | Open _ _ _ => (inr (Some 2%nat), fs, ps)
    | SaveAs _ path _ =>
        (inr None,
         <[path +:+ "_files" := Dir ["image001.png"]]>
           (<[path +:+ ".htm" := File]> fs), ps)
    | _ => (inr None, fs, ps)
    end
|}.

(** An application whose instance creation always ends in [e]. *)
Definition failing_dispatch (e : exn) : External := {|
  respond := λ c _ fs ps,
    match c with
    | EnsureDispatch _ => (inl e, fs, ps)
    | _ => (inr None, fs, ps)
    end
|}.

(** An application that opens the document, fails to save it with [e], and
    fails to close it as well. *)
Definition failing_close (e : exn) : External := {|
  respond := λ c _ fs ps,
    match c with
    | EnsureDispatch _ => (inr (Some 1%nat), fs, ps)
    | Open _ _ _ => (inr (Some 2%nat), fs, ps)
    | SaveAs _ _ _ => (inl e, fs, ps)
    | Close _ => (inl e, fs, ps)
    | _ => (inr None, fs, ps)
    end
|}.

(** No PDF reader and no table of types at hand. *)
Definition probe : Probe := {|
  pdf_pages := λ _ _, None;
  guess_type := λ _, None
|}.

Definition world_of (fs : fs_state) : world := World fs [] [] [] [] [] [].

(** A source document and nothing else. *)
Definition fresh : world :=
  world_of (<["/in/a.pub" := File]> (<["/in" := Dir ["a.pub"]]> ∅)).

(** The same, with the output of an earlier conversion in place. *)
Definition converted : world :=
  world_of (<["/out/a_files" := Dir ["image001.png"]]>
             (<["/out/a.htm" := File]>
               (<["/out" := Dir ["a.htm"; "a_files"]]> (w_fs fresh)))).

(** A source document and an output directory that holds [.gitkeep] and an
    older page. *)
Definition probing : world :=
  world_of (<["/out/a.htm" := File]>
             (<["/out/.gitkeep" := File]>
               (<["/out" := Dir [".gitkeep"; "a.htm"]]> (w_fs fresh)))).

(** An input tree with two Publisher files and a text file; the second
    Publisher file was converted before. *)
Definition tree : world :=
  world_of (<["/out/b_files" := Dir ["image001.png"]]>
             (<["/out/b.htm" := File]>
               (<["/out" := Dir ["b.htm"; "b_files"]]>
                 (<["/in/readme.txt" := File]>
                   (<["/in/b.PUB" := File]>
                     (<["/in/a.pub" := File]>
                       (<["/in" := Dir ["a.pub"; "b.PUB"; "readme.txt"]]>
                          ∅))))))).

End Demo.

(** ** Notions used in the statements *)

(** Both read three facts of the filesystem; [already_converted] states
    them. *)
Definition already_converted (fs : fs_state) (output_base : string) : bool :=
  fs_exists fs (output_base +:+ ".htm") &&
  match fs !! (output_base +:+ "_files") with
  | Some (Dir (_ :: _)) => true
  | _ => false
  end.

(** The world after the two lines the function prints first. *)
Definition announced (pl : PathLib) (pub_path output_dir : string) (w : world)
  : world :=
  World (w_fs w) (w_procs w) (w_calls w) (w_walks w) (w_mkdirs w)
        (w_out w ++ ["Input file path: " +:+ path_resolve pl pub_path;
                     "Output directory: " +:+ path_resolve pl output_dir])
        (w_err w).

(** The code of the error "a modal dialog blocks automation". *)
Definition modal_dialog_code : Z := (-2147221457)%Z.

(** An exception carries an error code when its [excepinfo] is a tuple
    whose item 5 is that integer. *)
Definition carries_code (e : exn) (code : Z) : bool :=
  match excepinfo e with
  | Some (PyTuple l) =>
      match l !! 5%nat with
      | Some (PyInt z) => (z =? code)%Z
      | _ => false
      end
  | _ => false
  end.

(** An attempt that failed with the modal-dialog code. *)
Definition failed_transient (a : attempt_result) : Prop :=
  match a with
  | Failed e => carries_code e modal_dialog_code = true
  | Succeeded => False
  end.

Definition is_dispatch (c : com_call) : bool :=
  match c with EnsureDispatch _ => true | _ => false end.

Definition is_release (c : com_call) : bool :=
  match c with Close _ | Quit _ => true | _ => false end.

(** The number of application instances asked for in a history of calls. *)
Definition dispatch_count (calls : list com_call) : nat :=
  List.length (filter (λ c, is_dispatch c = true) calls).

(** ** Assertions on computations *)

(** [hoare P m Q]: from a state in [P], [m] ends with an outcome and a state
    in [Q]. Every computation of [M] ends, so this is total correctness. *)
Definition hoare {S A} (P : S → Prop) (m : M S A) (Q : outcome A → S → Prop)
  : Prop :=
  ∀ s, P s → Q (m s).1 (m s).2.

(** [keeps I m]: [m] preserves [I], however it ends. *)
Definition keeps {S A} (I : S → Prop) (m : M S A) : Prop :=
  hoare I m (λ _, I).

(** [returns I m]: [m] preserves [I] and does not raise. *)
Definition returns {S A} (I : S → Prop) (m : M S A) : Prop :=
  hoare I m (λ r s, I s ∧ ∃ a, r = Return a).

(** An invariant of the world that holds through printing, through the
    loss of processes and through the automation calls selected by [sel]. *)
Record through (ext : External) (sel : com_call → bool) (I : world → Prop)
  : Prop := {
  through_out : ∀ line, keeps I (print line);
  through_err : ∀ line, keeps I (eprint line);
  through_procs : ∀ pid, keeps I (remove_process pid);
  through_com : ∀ c, sel c = true → keeps I (com ext c)
}.

(** The invariant lifted to frames, with the loop's own variables fixed. *)
Definition framed (I : world → Prop) (history : list attempt_result)
    (last_error : option exn) (fr : frame) : Prop :=
  I (f_world fr) ∧ f_history fr = history ∧ f_last_error fr = last_error.

(** The history of calls asks for [c] application instances. *)
Definition dispatched (c : nat) (w : world) : Prop :=
  dispatch_count (w_calls w) = c.

(** The error of line 209, for the last error the loop caught. *)
Definition final_error (max_retries : Z) (cause : option exn) : exn :=
  raise_of RuntimeError
    ("Failed to convert file after " +:+ pretty max_retries +:+ " attempts: "
       +:+ match cause with
           | Some e => exn_str e
           | None => "None"
           end).

(** The error of the last failed attempt of a history, [before] if there
    is none: the value of [last_error]. *)
Fixpoint last_failure (attempts : list attempt_result) (before : option exn)
  : option exn :=
  match attempts with
  | [] => before
  | Failed e :: rest => last_failure rest (Some e)
  | Succeeded :: rest => last_failure rest before
  end.

(** What one iteration of the loop leaves: one more entry in the history,
    one more instance asked for, and the way the loop goes on. *)
Definition attempt_post (c : nat) (history : list attempt_result)
    (last_error : option exn) (r : outcome control) (fr : frame) : Prop :=
  ∃ a,
    framed (dispatched (S c)) (history ++ [a]) (last_failure [a] last_error) fr ∧
    match a with
    | Succeeded => ∃ p, r = Return (CReturn p)
    | Failed e =>
        if carries_code e modal_dialog_code then r = Return CContinue
        else r = Return CBreak ∨ ∃ e', r = Raise e'
    end.

(** What the loop leaves after [n] more iterations at most. *)
Definition loop_post (max_retries : Z) (n c : nat) (history : list attempt_result)
    (last_error : option exn) (r : outcome string) (fr : frame) : Prop :=
  ∃ new,
    framed (dispatched (c + List.length new)) (history ++ new)
           (last_failure new last_error) fr ∧
    (Forall failed_transient new →
       List.length new = n ∧
       r = Raise (final_error max_retries (last_failure new last_error))) ∧
    (∀ (pre : list attempt_result) e post,
       new = (pre ++ Failed e :: post)%list →
       carries_code e modal_dialog_code = false →
       post = [] ∧ ∃ e', r = Raise e').

(** The [output_base] that [convert_pub_to_html] derives from its arguments. *)
Definition output_base_of (pl : PathLib) (pub_path output_dir : string) : string :=
  path_join pl (path_resolve pl output_dir)
    (path_splitext_root pl (path_basename pl (path_resolve pl pub_path))).

(** [Close] and [Quit] leave the filesystem as it is. *)
Definition releases_leave_files (ext : External) : Prop :=
  ∀ c calls fs ps, is_release c = true → (respond ext c calls fs ps).1.2 = fs.

(** The source is there, it is named [.pub], and no file is in the way of
    the output directory: what lets a call reach the already-converted
    check. *)
Definition reaches_check (pl : PathLib) (pub_path output_dir : string)
    (w : world) : Prop :=
  fs_exists (w_fs w) (path_resolve pl pub_path) = true ∧
  PyStr.endswith (PyStr.lower (path_resolve pl pub_path)) ".pub" = true ∧
  w_fs w !! path_resolve pl output_dir ≠ Some File.

(** A run that returns a path returns [output_base + '.htm'], and ends
    where the output is in place. *)
Definition success_post (output_base : string) (r : outcome string) (fr : frame)
  : Prop :=
  ∀ p, r = Return p →
       p = output_base +:+ ".htm" ∧
       already_converted (w_fs (f_world fr)) output_base = true.

Definition attempt_success_post (output_base : string) (r : outcome control)
    (fr : frame) : Prop :=
  ∀ p, r = Return (CReturn p) →
       p = output_base +:+ ".htm" ∧
       already_converted (w_fs (f_world fr)) output_base = true.

(** No file of a walk is a Publisher file. *)
Definition no_pub_files (triples : list (string * list string * list string))
  : Prop :=
  Forall (λ t, Forall (λ f, is_pub f = false) t.2) triples.

(** The outcome of the [try] block of [test_format_constant] from a world. *)
Definition probe_outcome (pl : PathLib) (ext : External) (pr : Probe)
    (pub_path output_dir : string) (format_constant : Z) (w : world)
  : outcome (list (string * string)) :=
  (probe_try pl ext pr pub_path output_dir format_constant (initial_frame w)).1.

(** An invariant of the world, seen from a frame. *)
Definition worldly (I : world → Prop) (fr : frame) : Prop := I (f_world fr).

(** Among the files visited, those whose output was in place when they
    were reached. *)
Definition skipped_among (visits : list (string * fs_state)) : Z :=
  Z.of_nat (List.length
              (filter (λ v, already_converted v.2 v.1 = true) visits)).

(** The output directories pass 2 creates: one for every directory of the
    walk that holds a Publisher file. *)
Definition mirror_dirs (pl : PathLib) (input_path output_path : string)
    (triples : list (string * list string * list string)) : list string :=
  map (λ t, path_join pl output_path (path_relative_to pl t.1.1 input_path))
      (filter (λ t, filter is_pub t.2 ≠ []) triples).

(** No regular file sits where one of [dirs] is to be. *)
Definition clear_of_files (dirs : list string) (fs : fs_state) : Prop :=
  ∀ d, d ∈ dirs → fs !! d ≠ Some File.

(** The same, of a world. *)
Definition clear_world (dirs : list string) (w : world) : Prop :=
  clear_of_files dirs (w_fs w).

(** The application never puts a regular file where one of [dirs] is to
    be. *)
Definition keeps_clear (ext : External) (dirs : list string) : Prop :=
  ∀ c calls fs ps,
    clear_of_files dirs fs →
    clear_of_files dirs (respond ext c calls fs ps).1.2.

(** The number of matching files in the triples of a walk, as a [nat]. *)
Definition matching (triples : list (string * list string * list string)) : nat :=
  sum_list (map (λ t, List.length (filter is_pub t.2)) triples).

(** The tally after [n] more files were visited from the tally [t0]. *)
Definition tally_post (t0 : tally) (n : nat) (r : outcome tally) : Prop :=
  ∃ t new,
    r = Return t ∧
    visited t = (visited t0 ++ new)%list ∧
    List.length new = n ∧
    files_skipped t = (files_skipped t0 + skipped_among new)%Z ∧
    files_converted t =
      (files_converted t0 + (Z.of_nat n - skipped_among new))%Z.

(** ** The command-line entry points

    [argparse] is not modelled: the arguments are those it delivers. The
    result is the exit status of the process, 1 when [sys.exit(1)] is
    reached and 0 otherwise. *)

Module Convert_py.

(** [main()] of convert.py, lines 220-225 *)
Definition main (pl : PathLib) (ext : External)
    (pub_file output_dir : string) (format_constant : Z) : world → Z * world :=
  λ w,
    match
      try_except
        (let! html_path :=
           convert_pub_to_html pl ext pub_file output_dir format_constant 3 in
         print ("Successfully converted to: " +:+ html_path) >> ret 0%Z)
        (λ e, eprint ("Error: " +:+ exn_str e) >> ret 1%Z) w
    with
    | (Return code, w') => (code, w')
    | (Raise _, w') => (1%Z, w')
    end.

End Convert_py.

Module Convert_tree_to_pub_py.

(** [main()] of convert_tree_to_pub.py, lines 114-121 *)
Definition main (pl : PathLib) (ext : External)
    (input_path output_path : string) : world → Z * world :=
  λ w,
    match
      try_except
        (print ("Starting conversion from " +:+ input_path +:+ " to "
                  +:+ output_path) >>
         let! counts := convert_directory pl ext input_path output_path in
         print EmptyString >>
         print ("Conversion complete. Converted " +:+ pretty counts.1
                  +:+ " file(s), skipped " +:+ pretty counts.2
                  +:+ " file(s).") >>
         ret 0%Z)
        (λ e, eprint ("Error: " +:+ exn_str e) >> ret 1%Z) w
    with
    | (Return code, w') => (code, w')
    | (Raise _, w') => (1%Z, w')
    end.

End Convert_tree_to_pub_py.

(** ** Notions used in the further statements *)

(** The processes of a table that [kill_publisher_processes] takes out of
    it: Publisher processes whose [kill] succeeds or that are found gone. *)
Definition leaves_table (p : process) : bool :=
  is_mspub p &&
  match proc_kill p with
  | KillAccessDenied => false
  | _ => true
  end.

Definition killed_pids (ps : list process) : list nat :=
  map proc_pid (filter (λ p, leaves_table p = true) ps).

(** A [kill] of a Publisher process succeeded. *)
Definition kill_succeeded (p : process) : bool :=
  is_mspub p &&
  match proc_kill p with
  | KillOk => true
  | _ => false
  end.

Definition is_open (c : com_call) : bool :=
  match c with Open _ _ _ => true | _ => false end.

(** Whether a call may follow the call [prev]: a document is only opened
    right after [AutomationSecurity] was set to 3 on the same instance. *)
Definition may_follow (prev : option com_call) (c : com_call) : bool :=
  match c with
  | Open p _ _ =>
      match prev with
      | Some (SetAutomationSecurity q level) => (p =? q)%nat && (level =? 3)%Z
      | _ => false
      end
  | _ => true
  end.

(** A history of calls in which every [Open] may follow its predecessor. *)
Fixpoint secured_from (prev : option com_call) (calls : list com_call) : bool :=
  match calls with
  | [] => true
  | c :: rest => may_follow prev c && secured_from (Some c) rest
  end.

Definition secured (calls : list com_call) : bool := secured_from None calls.


(** The [output_base] of every matching file of a walk, as pass 2 derives
    it. *)
Definition output_bases (pl : PathLib) (input_path output_path : string)
    (triples : list (string * list string * list string)) : list string :=
  flat_map
    (λ t, map (λ f, path_join pl
                      (path_join pl output_path
                                 (path_relative_to pl t.1.1 input_path))
                      (path_stem pl f))
              (filter is_pub t.2))
    triples.

(** The history of calls of a world is secured. *)
Definition secured_world (w : world) : Prop := secured (w_calls w) = true.

(** The same, and the last call set [AutomationSecurity] to 3 on the
    instance [h]. *)
Definition just_secured (h : nat) (w : world) : Prop :=
  secured (w_calls w) = true ∧
  last (w_calls w) = Some (SetAutomationSecurity h 3).

(** Two worlds that differ at most in what was printed and in the walks
    noted. *)
Definition quiet (w w' : world) : Prop :=
  w_fs w' = w_fs w ∧ w_calls w' = w_calls w ∧ w_procs w' = w_procs w ∧
  w_mkdirs w' = w_mkdirs w.

(** Every output of [outputs] is in place, no file is in the way of
    [dirs], and the calls and the processes are those given. *)
Definition settled (outputs dirs : list string) (calls : list com_call)
    (procs : list process) (w : world) : Prop :=
  (∀ ob, ob ∈ outputs → already_converted (w_fs w) ob = true) ∧
  clear_of_files dirs (w_fs w) ∧
  w_calls w = calls ∧ w_procs w = procs.

(** The [.gitkeep] entry of a directory is there with the node [kept], and
    the directory lists it if [listed]. *)
Definition gitkeep_kept (pl : PathLib) (output_dir : string)
    (kept : option node) (listed : Prop) (w : world) : Prop :=
  w_fs w !! path_join pl output_dir ".gitkeep" = kept ∧
  ∃ l, w_fs w !! output_dir = Some (Dir l) ∧ (listed → ".gitkeep" ∈ l).

(** * Properties *)

(** ** The already-converted check and the validator *)

Ltac run_monad :=
  unfold validate_html, check_output_exists, print, eprint,
    os_path_exists, os_path_isdir, os_listdir, bind, ret, throw, get, modify,
    fs_exists, fs_isdir, fs_listdir; simpl.

Lemma check_output_exists_run output_base w :
  ∃ v, check_output_exists output_base w = (Return v, w) ∧
       truthy v = already_converted (w_fs w) output_base.
Proof.
  unfold already_converted. run_monad.
  repeat case_match; simplify_eq/=; eauto.
Qed.

Lemma validate_html_run output_base w :
  (already_converted (w_fs w) output_base = true ∧
     ∃ w', validate_html output_base w = (Return tt, w')) ∨
  (already_converted (w_fs w) output_base = false ∧
     ∃ msg, validate_html output_base w = (Raise (raise_of RuntimeError msg), w)).
Proof.
  unfold already_converted. run_monad.
  repeat case_match; simplify_eq/=; eauto.
Qed.

(** The validator changes nothing of the world but standard output. *)
Lemma validate_html_world output_base w r w' :
  validate_html output_base w = (r, w') →
  w_fs w' = w_fs w ∧ w_procs w' = w_procs w ∧ w_calls w' = w_calls w ∧
  w_walks w' = w_walks w ∧ w_mkdirs w' = w_mkdirs w ∧ w_err w' = w_err w.
Proof.
  run_monad. intros H. repeat case_match; simplify_eq/=; auto 10.
Qed.

(** C3. When the primary file [output_base + '.htm'] exists but
    [output_base + '_files'] is absent, is not a directory, or is an empty
    directory, [validate_html] raises its [RuntimeError]: the primary file
    alone does not make the validation succeed. *)
Theorem validate_html_needs_resources (output_base : string) (w : world) :
  fs_exists (w_fs w) (output_base +:+ ".htm") = true →
  w_fs w !! (output_base +:+ "_files") = None ∨
  w_fs w !! (output_base +:+ "_files") = Some File ∨
  w_fs w !! (output_base +:+ "_files") = Some (Dir []) →
  ∃ msg w',
    validate_html output_base w = (Raise (raise_of RuntimeError msg), w').
Proof.
  intros _ Hres.
  destruct (validate_html_run output_base w) as [[Hc _]|[_ [msg Hv]]]; [|eauto].
  unfold already_converted in Hc. apply andb_true_iff in Hc as [_ Hc].
  destruct Hres as [H|[H|H]]; rewrite H in Hc; discriminate.
Qed.

Lemma validate_html_needs_resources_witness :
  ∃ msg w',
    validate_html "/out/a"
      (Demo.world_of (<["/out/a_files" := Dir []]> (<["/out/a.htm" := File]> ∅)))
    = (Raise (raise_of RuntimeError msg), w').
Proof.
  apply validate_html_needs_resources.
  - vm_compute. reflexivity.
  - right. right. vm_compute. reflexivity.
Defined.

(** C4. [check_output_exists] is truthy exactly when [validate_html] does
    not raise, in every world and for every [output_base]; neither touches
    the filesystem ([check_output_exists] leaves the whole world as it is,
    [validate_html] only writes to standard output). *)
Theorem check_output_exists_iff_validate_html (output_base : string) (w : world) :
  ∃ v r w',
    check_output_exists output_base w = (Return v, w) ∧
    validate_html output_base w = (r, w') ∧
    (truthy v = true ↔ r = Return tt) ∧
    w_fs w' = w_fs w ∧ w_procs w' = w_procs w ∧ w_calls w' = w_calls w ∧
    w_mkdirs w' = w_mkdirs w.
Proof.
  destruct (check_output_exists_run output_base w) as (v & Hc & Ht).
  destruct (validate_html output_base w) as [r w'] eqn:Hv.
  exists v, r, w'.
  pose proof (validate_html_world _ _ _ _ Hv) as (? & ? & ? & ? & ? & ?).
  repeat split; auto.
  - intros Hv'. rewrite Ht in Hv'.
    destruct (validate_html_run output_base w) as [[_ [w'' E]]|[Hn _]];
      congruence.
  - intros ->. rewrite Ht.
    destruct (validate_html_run output_base w) as [[Hy _]|[_ [msg E]]];
      [done | congruence].
Qed.

(** ** The precondition checks of [convert_pub_to_html] *)

Section Preconditions.

Context (pl : PathLib) (ext : External).

Lemma convert_prelude_missing pub_path output_dir w :
  fs_exists (w_fs w) (path_resolve pl pub_path) = false →
  convert_prelude pl pub_path output_dir w =
    (Raise (raise_of FileNotFoundError
              ("Publisher file not found: " +:+ path_resolve pl pub_path)),
     announced pl pub_path output_dir w).
Proof.
  intros H. unfold convert_prelude, announced, print, os_path_exists, bind,
    modify, throw. simpl. rewrite H. simpl. by rewrite <- app_assoc.
Qed.

Lemma convert_prelude_extension pub_path output_dir w :
  fs_exists (w_fs w) (path_resolve pl pub_path) = true →
  PyStr.endswith (PyStr.lower (path_resolve pl pub_path)) ".pub" = false →
  convert_prelude pl pub_path output_dir w =
    (Raise (raise_of ValueError "File must have .pub extension"),
     announced pl pub_path output_dir w).
Proof.
  intros H E. unfold convert_prelude, announced, print, os_path_exists, bind,
    modify, throw. simpl. rewrite H. simpl. rewrite E. simpl.
  by rewrite <- app_assoc.
Qed.

Lemma convert_pub_to_html_prelude_raise pub_path output_dir fmt retries w e w' :
  convert_prelude pl pub_path output_dir w = (Raise e, w') →
  convert_pub_to_html pl ext pub_path output_dir fmt retries w = (Raise e, w').
Proof.
  intros H. unfold convert_pub_to_html, convert_pub_to_html_frame.
  by rewrite H.
Qed.

(** C7. A source path without the [.pub] extension (in any letter case)
    makes [convert_pub_to_html] raise from its precondition checks, and the
    history of automation calls is as it was: no instance is created, nothing
    is opened or saved. The filesystem and the process table are untouched
    too. The path tested is the resolved one, as in the source. *)
Theorem convert_pub_to_html_rejects_extension
    (pub_path output_dir : string) (format_constant max_retries : Z) (w : world) :
  PyStr.endswith (PyStr.lower (path_resolve pl pub_path)) ".pub" = false →
  ∃ e w',
    convert_pub_to_html pl ext pub_path output_dir format_constant max_retries w
      = (Raise e, w') ∧
    (exn_class_of e = FileNotFoundError ∨ exn_class_of e = ValueError) ∧
    w_calls w' = w_calls w ∧ w_fs w' = w_fs w ∧ w_procs w' = w_procs w ∧
    w_mkdirs w' = w_mkdirs w.
Proof.
  intros E.
  destruct (fs_exists (w_fs w) (path_resolve pl pub_path)) eqn:H.
  - eexists _, _. split.
    + apply convert_pub_to_html_prelude_raise.
      by apply convert_prelude_extension.
    + simpl. auto 10.
  - eexists _, _. split.
    + apply convert_pub_to_html_prelude_raise.
      by apply convert_prelude_missing.
    + simpl. auto 10.
Qed.

(** C10. The existence check comes first. A source path that does not exist
    yields [FileNotFoundError], whatever its extension; and whenever
    [convert_pub_to_html] raises [ValueError], the path exists. *)
Theorem convert_pub_to_html_existence_first
    (pub_path output_dir : string) (format_constant max_retries : Z) (w : world) :
  (fs_exists (w_fs w) (path_resolve pl pub_path) = false →
   convert_pub_to_html pl ext pub_path output_dir format_constant max_retries w
     = (Raise (raise_of FileNotFoundError
                 ("Publisher file not found: " +:+ path_resolve pl pub_path)),
        announced pl pub_path output_dir w)) ∧
  (∀ e w',
     convert_pub_to_html pl ext pub_path output_dir format_constant max_retries w
       = (Raise e, w') →
     exn_class_of e = ValueError →
     fs_exists (w_fs w) (path_resolve pl pub_path) = true).
Proof.
  split.
  - intros H. apply convert_pub_to_html_prelude_raise.
    by apply convert_prelude_missing.
  - intros e w' Hr Hc.
    destruct (fs_exists (w_fs w) (path_resolve pl pub_path)) eqn:H; [done|].
    rewrite (convert_pub_to_html_prelude_raise _ _ _ _ _ _ _
               (convert_prelude_missing pub_path output_dir w H)) in Hr.
    by simplify_eq.
Qed.

End Preconditions.

Lemma convert_pub_to_html_rejects_extension_witness :
  ∃ e w',
    convert_pub_to_html Demo.pathlib Demo.working "/in/notes.txt" "/out" 7 3
      (Demo.world_of (<["/in/notes.txt" := File]> ∅)) = (Raise e, w') ∧
    (exn_class_of e = FileNotFoundError ∨ exn_class_of e = ValueError) ∧
    w_calls w' = [] ∧ w_fs w' = <["/in/notes.txt" := File]> ∅ ∧
    w_procs w' = [] ∧ w_mkdirs w' = [].
Proof.
  refine (convert_pub_to_html_rejects_extension Demo.pathlib Demo.working
            "/in/notes.txt" "/out" 7 3
            (Demo.world_of (<["/in/notes.txt" := File]> ∅)) _).
  vm_compute. reflexivity.
Defined.

Lemma convert_pub_to_html_existence_first_witness :
  convert_pub_to_html Demo.pathlib Demo.working "/in/gone.txt" "/out" 7 3
    Demo.fresh
  = (Raise (raise_of FileNotFoundError "Publisher file not found: /in/gone.txt"),
     announced Demo.pathlib "/in/gone.txt" "/out" Demo.fresh) ∧
  fs_exists (<["/in/notes.txt" := File]> ∅) "/in/notes.txt" = true.
Proof.
  split.
  - apply (proj1 (convert_pub_to_html_existence_first Demo.pathlib
                    Demo.working "/in/gone.txt" "/out" 7 3 Demo.fresh)).
    vm_compute. reflexivity.
  - refine (proj2 (convert_pub_to_html_existence_first Demo.pathlib
                     Demo.working "/in/notes.txt" "/out" 7 3
                     (Demo.world_of (<["/in/notes.txt" := File]> ∅)))
                  _ _ _ _).
    + vm_compute. reflexivity.
    + reflexivity.
Defined.

(** ** Rules for assertions *)

Section Rules.

Context {S : Type}.
Implicit Types I P : S → Prop.

Lemma hoare_conseq {A} P P' (Q Q' : outcome A → S → Prop) (m : M S A) :
  hoare P' m Q' → (∀ s, P s → P' s) → (∀ r s, Q' r s → Q r s) → hoare P m Q.
Proof. unfold hoare. auto. Qed.

Lemma hoare_bind {A B} P (R : outcome A → S → Prop) Q (m : M S A) (k : A → M S B) :
  hoare P m R →
  (∀ a, hoare (R (Return a)) (k a) Q) →
  (∀ e s, R (Raise e) s → Q (Raise e) s) →
  hoare P (bind m k) Q.
Proof.
  unfold hoare, bind. intros Hm Hk He s Hs. specialize (Hm s Hs).
  destruct (m s) as [[a|e] s']; simpl in *; auto.
Qed.

Lemma hoare_try_except {A} P (R : outcome A → S → Prop) Q (m : M S A) h :
  hoare P m R →
  (∀ a s, R (Return a) s → Q (Return a) s) →
  (∀ e, hoare (R (Raise e)) (h e) Q) →
  hoare P (try_except m h) Q.
Proof.
  unfold hoare, try_except. intros Hm Ha Hh s Hs. specialize (Hm s Hs).
  destruct (m s) as [[a|e] s']; simpl in *; auto.
Qed.

Lemma hoare_try_finally {A} P (R : outcome A → S → Prop) Q (m : M S A) f :
  hoare P m R →
  (∀ r, hoare (R r) f (λ r' s, match r' with
                               | Return _ => Q r s
                               | Raise e => Q (Raise e) s
                               end)) →
  hoare P (try_finally m f) Q.
Proof.
  unfold hoare, try_finally. intros Hm Hf s Hs. specialize (Hm s Hs).
  destruct (m s) as [r s']; simpl in *. specialize (Hf r s' Hm).
  destruct (f s') as [[[]|e] s'']; simpl in *; auto.
Qed.

Lemma keeps_ret {A} I (a : A) : keeps I (ret a).
Proof. by intros s Hs. Qed.

Lemma keeps_throw {A} I e : keeps I (throw (A := A) e).
Proof. by intros s Hs. Qed.

Lemma keeps_get I : keeps I get.
Proof. by intros s Hs. Qed.

Lemma keeps_bind {A B} I (m : M S A) (k : A → M S B) :
  keeps I m → (∀ a, keeps I (k a)) → keeps I (bind m k).
Proof. intros Hm Hk. eapply hoare_bind; eauto. Qed.

Lemma keeps_try_except {A} I (m : M S A) h :
  keeps I m → (∀ e, keeps I (h e)) → keeps I (try_except m h).
Proof. intros Hm Hh. eapply hoare_try_except; eauto. Qed.

Lemma keeps_try_finally {A} I (m : M S A) f :
  keeps I m → keeps I f → keeps I (try_finally m f).
Proof.
  intros Hm Hf. eapply hoare_try_finally; eauto.
  intros r s Hs. specialize (Hf s Hs). simpl in *. by destruct (f s).1.
Qed.

Lemma returns_keeps {A} I (m : M S A) : returns I m → keeps I m.
Proof. intros H s Hs. by destruct (H s Hs). Qed.

Lemma returns_ret {A} I (a : A) : returns I (ret a).
Proof. intros s Hs. simpl. eauto. Qed.

Lemma returns_get I : returns I get.
Proof. intros s Hs. simpl. eauto. Qed.

Lemma returns_modify I (f : S → S) : (∀ s, I s → I (f s)) → returns I (modify f).
Proof. intros H s Hs. simpl. eauto. Qed.

Lemma returns_bind {A B} I (m : M S A) (k : A → M S B) :
  returns I m → (∀ a, returns I (k a)) → returns I (bind m k).
Proof.
  intros Hm Hk. eapply hoare_bind; [exact Hm| |].
  - intros a s [Hs _]. by apply Hk.
  - intros e s [_ [a [=]]].
Qed.

Lemma returns_try_except {A} I (m : M S A) h :
  keeps I m → (∀ e, returns I (h e)) → returns I (try_except m h).
Proof.
  intros Hm Hh. eapply hoare_try_except; [exact Hm| |]; simpl; eauto.
Qed.

End Rules.

(** ** Invariants through the helpers of the conversion *)

Section Through.

Context (pl : PathLib) (ext : External).
Context (sel : com_call → bool) (I : world → Prop) (HI : through ext sel I).

Lemma print_returns line : returns I (print line).
Proof.
  intros w Hw. split; [by apply (through_out _ _ _ HI)|]. by exists tt.
Qed.

Lemma eprint_returns line : returns I (eprint line).
Proof.
  intros w Hw. split; [by apply (through_err _ _ _ HI)|]. by exists tt.
Qed.

Lemma print_each_returns prefix l : returns I (print_each prefix l).
Proof.
  induction l as [|x l IH]; simpl; [apply returns_ret|].
  apply returns_bind; [apply print_returns|done].
Qed.

Lemma remove_process_returns pid : returns I (remove_process pid).
Proof.
  intros w Hw. split; [by apply (through_procs _ _ _ HI)|]. by exists tt.
Qed.

Lemma kill_each_returns ps killed : returns I (kill_each ps killed).
Proof.
  revert killed. induction ps as [|p ps IH]; intros killed; simpl.
  - apply returns_ret.
  - destruct (is_mspub p); [|apply IH].
    apply returns_bind; [apply print_returns|intros _].
    destruct (proc_kill p); try apply IH;
      (apply returns_bind; [apply remove_process_returns|intros _; apply IH]).
Qed.

Lemma kill_publisher_processes_returns : returns I kill_publisher_processes.
Proof.
  unfold kill_publisher_processes.
  apply returns_bind; [apply returns_get|intros w].
  apply returns_bind; [apply kill_each_returns|intros [|]];
    [|apply returns_ret].
  apply returns_bind; [apply returns_get|intros w'].
  destruct (existsb is_mspub (w_procs w')); [|apply returns_ret].
  apply returns_bind; [apply print_returns|intros _; apply returns_ret].
Qed.

Lemma method_keeps obj meth c :
  (∀ h, sel (c h) = true) → keeps I (method ext obj meth c).
Proof.
  intros Hc. destruct obj as [h|]; simpl.
  - by apply (through_com _ _ _ HI).
  - apply keeps_throw.
Qed.

Lemma check_output_files_returns base : returns I (check_output_files pl base).
Proof. intros w Hw. simpl. eauto. Qed.

Lemma os_path_exists_returns p : returns I (os_path_exists p).
Proof. intros w Hw. simpl. eauto. Qed.

Lemma os_path_isdir_returns p : returns I (os_path_isdir p).
Proof. intros w Hw. simpl. eauto. Qed.

Lemma os_listdir_keeps p : keeps I (os_listdir p).
Proof. by intros w Hw. Qed.

Lemma validate_html_keeps html_path : keeps I (validate_html html_path).
Proof.
  unfold validate_html.
  apply keeps_bind; [apply returns_keeps, os_path_exists_returns|intros e].
  destruct (negb e); [apply keeps_throw|].
  apply keeps_bind; [apply returns_keeps, os_path_exists_returns|intros e'].
  apply keeps_bind.
  { destruct (negb e'); [apply keeps_ret|].
    apply returns_keeps, os_path_isdir_returns. }
  intros d. destruct (negb e' || negb d); [apply keeps_throw|].
  apply keeps_bind; [apply os_listdir_keeps|intros [|x l]];
    [apply keeps_throw|].
  repeat (apply keeps_bind; [apply returns_keeps, print_returns|intros _]).
  apply returns_keeps, print_returns.
Qed.

Lemma check_output_exists_returns output_base :
  returns I (check_output_exists output_base).
Proof.
  intros w Hw. destruct (check_output_exists_run output_base w) as (v & E & _).
  rewrite E. simpl. eauto.
Qed.

(** *** Frames *)

Context (history : list attempt_result) (last_error : option exn).

Lemma liftw_keeps {A} (m : M world A) :
  keeps I m → keeps (framed I history last_error) (liftw m).
Proof.
  intros Hm fr (Hw & Hh & Hl). specialize (Hm _ Hw).
  unfold liftw. destruct (m (f_world fr)) as [r w']. simpl in *. by split.
Qed.

Lemma liftw_returns {A} (m : M world A) :
  returns I m → returns (framed I history last_error) (liftw m).
Proof.
  intros Hm fr (Hw & Hh & Hl). specialize (Hm _ Hw).
  unfold liftw. destruct (m (f_world fr)) as [r w']. simpl in *.
  destruct Hm as [Hw' Hr]. by repeat split.
Qed.

Lemma set_publisher_returns v :
  returns (framed I history last_error) (set_publisher v).
Proof. apply returns_modify. by intros fr (? & ? & ?). Qed.

Lemma set_doc_returns v : returns (framed I history last_error) (set_doc v).
Proof. apply returns_modify. by intros fr (? & ? & ?). Qed.

Lemma release_keeps :
  (∀ c, is_release c = true → sel c = true) →
  keeps (framed I history last_error) (release ext).
Proof.
  intros Hsel. unfold release.
  apply keeps_bind; [apply keeps_get|intros fr].
  apply keeps_bind.
  - destruct (f_doc fr) as [d|]; [|apply keeps_ret].
    apply keeps_bind; [|intros; apply keeps_ret].
    apply liftw_keeps, (through_com _ _ _ HI). by apply Hsel.
  - intros _. destruct (f_publisher fr) as [p|]; [|apply keeps_ret].
    apply keeps_bind; [|intros; apply keeps_ret].
    apply liftw_keeps, (through_com _ _ _ HI). by apply Hsel.
Qed.

End Through.

(** ** One attempt *)

Section AttemptRules.

Context (pl : PathLib) (ext : External).
Context (pub_path output_base : string) (format_constant max_retries : Z).

Lemma dispatch_count_app l c :
  dispatch_count (l ++ [c]) =
  (dispatch_count l + if is_dispatch c then 1 else 0)%nat.
Proof.
  unfold dispatch_count. rewrite filter_app, length_app. f_equal.
  by destruct c.
Qed.

Lemma dispatched_through c :
  through ext (λ x, negb (is_dispatch x)) (dispatched c).
Proof.
  split.
  - by intros line w Hw.
  - by intros line w Hw.
  - by intros pid w Hw.
  - intros x Hx w Hw. unfold dispatched, com in *.
    destruct (respond ext x (w_calls w) (w_fs w) (w_procs w)) as [[[e|v] fs] ps];
      simpl; rewrite dispatch_count_app; destruct (is_dispatch x);
      simpl in *; try done; lia.
Qed.

Lemma dispatch_step c history last_error progid :
  hoare (framed (dispatched c) history last_error)
        (liftw (com ext (EnsureDispatch progid)))
        (λ _, framed (dispatched (S c)) history last_error).
Proof.
  intros fr (Hw & Hh & Hl). unfold liftw, com, dispatched in *.
  destruct (respond ext _ _ _ _) as [[[e|v] fs] ps]; simpl;
    (split; [|done]); simpl; rewrite dispatch_count_app; simpl; lia.
Qed.

Lemma returns_then {S A B} (I : S → Prop) Q (m : M S A) (k : A → M S B) :
  returns I m → (∀ a, hoare I (k a) Q) → hoare I (bind m k) Q.
Proof.
  intros Hm Hk. eapply hoare_bind; [exact Hm| |].
  - intros a s [Hs _]. by apply Hk.
  - intros e s [_ [a [=]]].
Qed.

Lemma attempt_try_hoare attempt c history last_error :
  hoare (framed (dispatched c) history last_error)
        (attempt_try pl ext pub_path output_base format_constant max_retries
                     attempt)
        (λ _, framed (dispatched (S c)) history last_error).
Proof.
  pose proof (dispatched_through c) as T0.
  pose proof (dispatched_through (S c)) as T1.
  unfold attempt_try.
  apply returns_then.
  { destruct (0 <? attempt)%nat; [|apply returns_ret].
    repeat (apply returns_bind;
            [eapply liftw_returns, print_returns; eauto|intros _]).
    apply returns_bind;
      [eapply liftw_returns, kill_publisher_processes_returns; eauto|].
    intros [|]; simpl; [apply returns_ret|].
    eapply liftw_returns, print_returns; eauto. }
  intros _. apply returns_then;
    [eapply liftw_returns, print_returns; eauto|intros _].
  eapply hoare_bind; [apply dispatch_step| |done].
  intros publisher.
  change (keeps (framed (dispatched (S c)) history last_error)
            (set_publisher publisher >> (liftw (method ext publisher "AutomationSecurity" (λ h, SetAutomationSecurity h 3)) >>
             liftw (print "Opening document...") >>
             let! doc := liftw (method ext publisher "Open" (λ h, Open h (path_absolute pl pub_path) [false; false])) in
             set_doc doc >>
             liftw (print "Saving as HTML...") >>
             liftw (method ext doc "SaveAs" (λ h, SaveAs h (path_absolute pl output_base) format_constant)) >>
             liftw (print "Checking created files...") >>
             let! created_files := liftw (check_output_files pl output_base) in
             liftw (match created_files with
                    | [] => print "No files were created"
                    | _ => print "Created files:" >> print_each "- " created_files
                    end) >>
             liftw (print "Validating HTML...") >>
             liftw (validate_html output_base) >>
             ret (output_base +:+ ".htm")))).
  repeat first
    [ eapply validate_html_keeps; eauto
    | eapply returns_keeps, print_returns; eauto
    | eapply returns_keeps, print_each_returns; eauto
    | eapply method_keeps; eauto
    | eapply returns_keeps, check_output_files_returns; eauto
    | apply returns_keeps, set_publisher_returns
    | apply returns_keeps, set_doc_returns
    | apply liftw_keeps
    | apply keeps_ret
    | apply keeps_bind; [|intros ?]
    | match goal with
      | |- keeps _ (match ?l with _ => _ end) => destruct l
      end ].
Qed.

Lemma step_then {S A B} (P Q' : S → Prop) Q (m : M S A) (k : A → M S B) :
  hoare P m (λ r s, Q' s ∧ ∃ a, r = Return a) →
  (∀ a, hoare Q' (k a) Q) →
  hoare P (bind m k) Q.
Proof.
  intros Hm Hk. eapply hoare_bind; [exact Hm| |].
  - intros a s [Hs _]. by apply Hk.
  - intros e s [_ [a [=]]].
Qed.

(** How the [except] block classifies the error it caught. *)
Lemma classify_transient e v :
  excepinfo e = Some v →
  carries_code e modal_dialog_code = true →
  ∃ n, py_len v = Return n ∧
       py_ne_int (if (5 <? n)%nat then py_index v 5 else PyNone)
                 (-2147221457) = false.
Proof.
  unfold carries_code. intros ->. destruct v as [| | |l]; try done.
  destruct (l !! 5%nat) as [[|z| |]|] eqn:E; try done.
  intros Hz. exists (List.length l). split; [done|].
  apply lookup_lt_Some in E as Hlt.
  destruct (Nat.ltb_spec 5 (List.length l)); [|lia].
  simpl. rewrite E. simpl. unfold modal_dialog_code in Hz. by rewrite Hz.
Qed.

Lemma classify_other e v n :
  excepinfo e = Some v →
  carries_code e modal_dialog_code = false →
  py_len v = Return n →
  py_ne_int (if (5 <? n)%nat then py_index v 5 else PyNone) (-2147221457) = true.
Proof.
  unfold carries_code. intros ->. destruct v as [| |s|l]; try done.
  - intros _ _. by destruct (5 <? n)%nat.
  - intros Hc [= <-]. destruct (Nat.ltb_spec 5 (List.length l)); [|done].
    simpl. destruct (l !! 5%nat) as [[|z| |]|]; try done.
    simpl. unfold modal_dialog_code in Hc. by rewrite Hc.
Qed.

Lemma attempt_except_hoare attempt e c history last_error :
  hoare (framed (dispatched c) history last_error)
        (attempt_except ext attempt e)
        (λ r fr,
           framed (dispatched c) (history ++ [Failed e]) (Some e) fr ∧
           if carries_code e modal_dialog_code then r = Return CContinue
           else r = Return CBreak ∨ ∃ e', r = Raise e').
Proof.
  pose proof (dispatched_through c) as T.
  unfold attempt_except.
  apply step_then with (Q' := framed (dispatched c) history (Some e)).
  { intros fr (? & <- & <-). simpl. split; [by split|by exists tt]. }
  intros _.
  apply step_then
    with (Q' := framed (dispatched c) (history ++ [Failed e]) (Some e)).
  { intros fr (? & <- & ?). simpl. split; [by split|by exists tt]. }
  intros _.
  apply returns_then; [eapply liftw_returns, eprint_returns; eauto|intros _].
  apply returns_then.
  { destruct (excepinfo e); [|apply returns_ret].
    eapply liftw_returns, eprint_returns; eauto. }
  intros _. apply returns_then.
  { apply returns_try_except; [|intros; apply returns_ret].
    eapply release_keeps; eauto. by intros []. }
  intros _ fr Hfr.
  destruct (excepinfo e) as [v|] eqn:Ev.
  - destruct (carries_code e modal_dialog_code) eqn:Hc.
    + destruct (classify_transient e v Ev Hc) as (n & Hn & Hne).
      unfold bind. simpl. rewrite Hn. simpl. rewrite Hne. by split.
    + unfold bind. simpl. destruct (py_len v) as [n|e'] eqn:Hn; simpl.
      * rewrite (classify_other e v n Ev Hc Hn). split; auto.
      * split; eauto.
  - replace (carries_code e modal_dialog_code) with false
      by (unfold carries_code; by rewrite Ev).
    simpl. split; auto.
Qed.

Lemma attempt_finally_returns c history last_error :
  returns (framed (dispatched c) history last_error) (attempt_finally ext).
Proof.
  pose proof (dispatched_through c) as T.
  unfold attempt_finally.
  apply returns_bind; [eapply liftw_returns, print_returns; eauto|intros _].
  apply returns_try_except.
  - eapply release_keeps; eauto. by intros [].
  - intros e. eapply liftw_returns, eprint_returns; eauto.
Qed.

Lemma attempt_once_hoare attempt c history last_error :
  hoare (framed (dispatched c) history last_error)
        (attempt_once pl ext pub_path output_base format_constant max_retries
                      attempt)
        (attempt_post c history last_error).
Proof.
  unfold attempt_once.
  apply returns_then; [apply set_publisher_returns|intros _].
  apply returns_then; [apply set_doc_returns|intros _].
  eapply hoare_try_finally with (R := attempt_post c history last_error).
  - eapply hoare_try_except
      with (R := λ r fr,
              match r with
              | Return _ => attempt_post c history last_error r fr
              | Raise _ => framed (dispatched (S c)) history last_error fr
              end).
    + eapply hoare_bind; [apply attempt_try_hoare| |done].
      intros p fr (? & <- & <-). simpl. exists Succeeded. simpl.
      split; [by split|by exists p].
    + done.
    + intros e. eapply hoare_conseq; [apply attempt_except_hoare|done|].
      intros r fr [Hfr Hr]. exists (Failed e). by split.
  - intros r fr (a & Hfr & Ha).
    pose proof (attempt_finally_returns _ _ _ fr Hfr) as [Hfr' [[] Hr]].
    rewrite Hr. by exists a.
Qed.

(** ** The retry loop *)

Lemma exhausted_hoare c history last_error :
  hoare (framed (dispatched c) history last_error)
        (exhausted max_retries)
        (λ r fr, framed (dispatched c) history last_error fr ∧
                 r = Raise (final_error max_retries last_error)).
Proof. intros fr (? & ? & <-). by repeat split. Qed.

Lemma attempts_from_hoare n attempt c history last_error :
  hoare (framed (dispatched c) history last_error)
        (attempts_from pl ext pub_path output_base format_constant max_retries
                       n attempt)
        (loop_post max_retries n c history last_error).
Proof.
  revert attempt c history last_error.
  induction n as [|n IH]; intros attempt c history last_error; simpl.
  - eapply hoare_conseq; [apply exhausted_hoare|done|].
    intros r fr [Hfr ->]. exists []. rewrite Nat.add_0_r, app_nil_r.
    split; [done|]. split; [done|]. by intros [|??] ? ? [=].
  - eapply hoare_bind; [apply attempt_once_hoare| |].
    + intros ctl fr (a & Hfr & Ha).
      destruct a as [|e]; [|destruct (carries_code e modal_dialog_code) eqn:Hc].
      * (* the attempt returned *)
        destruct Ha as [p [= ->]]. exists [Succeeded].
        rewrite Nat.add_1_r. split; [done|]. split.
        -- by intros [[] _]%Forall_cons.
        -- by intros [|? [|??]] ? ? [=].
      * (* the modal-dialog code: next iteration *)
        injection Ha as ->.
        pose proof (IH (S attempt) _ _ _ fr Hfr) as (new & Hnew & H1 & H2).
        exists (Failed e :: new). simpl in *.
        rewrite <- app_assoc in Hnew. simpl in Hnew.
        rewrite Nat.add_succ_r. split; [done|]. split.
        -- intros [_ Hall]%Forall_cons. by destruct (H1 Hall) as [-> ->].
        -- intros [|x pre] e0 post [=] He0; subst; [congruence|].
           eapply H2; eauto.
      * (* another error: the loop is left *)
        destruct Ha as [[= ->]|[e' [=]]].
        pose proof (exhausted_hoare _ _ _ fr Hfr) as [Hfr' Hr].
        exists [Failed e]. rewrite Nat.add_1_r. split; [done|]. split.
        -- intros [Ht _]%Forall_cons. simpl in Ht. congruence.
        -- intros [|? [|??]] ? ? [=]. subst. split; eauto.
    + intros e fr (a & Hfr & Ha). exists [a]. rewrite Nat.add_1_r.
      split; [done|]. destruct a as [|e0]; [by destruct Ha|].
      destruct (carries_code e0 modal_dialog_code) eqn:Hc; [done|].
      split.
      * intros [Ht _]%Forall_cons. simpl in Ht. congruence.
      * intros [|? [|??]] ? ? [=]. subst. split; eauto.
Qed.

End AttemptRules.

Section Supervisor.

Context (pl : PathLib) (ext : External).

Lemma convert_prelude_keeps (I : world → Prop) pub_path output_dir :
  (∀ line, keeps I (print line)) →
  (∀ p, keeps I (os_makedirs p)) →
  keeps I (convert_prelude pl pub_path output_dir).
Proof.
  intros Hp Hm. unfold convert_prelude.
  repeat first
    [ apply Hp | apply Hm | apply keeps_ret | apply keeps_throw
    | apply returns_keeps, os_path_exists_returns
    | intros w Hw;
      destruct (check_output_exists_run
                  (path_join pl (path_resolve pl output_dir)
                     (path_splitext_root pl
                        (path_basename pl (path_resolve pl pub_path)))) w)
        as (v & -> & _); exact Hw
    | apply keeps_bind; [|intros ?]
    | match goal with
      | |- keeps _ (if ?b then _ else _) => destruct b
      end ].
Qed.

Lemma convert_prelude_calls pub_path output_dir w r w0 :
  convert_prelude pl pub_path output_dir w = (r, w0) →
  w_calls w0 = w_calls w ∧ w_procs w0 = w_procs w.
Proof.
  intros E.
  pose proof (convert_prelude_keeps
                (λ x, w_calls x = w_calls w ∧ w_procs x = w_procs w)
                pub_path output_dir) as H.
  rewrite <- (f_equal snd E : (convert_prelude pl pub_path output_dir w).2 = w0).
  apply H; [by intros line x Hx| |done].
  intros p x Hx. unfold os_makedirs. by repeat case_match.
Qed.

(** C1. Once the loop is entered: if every attempt made raised an error
    carrying the modal-dialog code -2147221457, exactly [max_retries]
    attempts were made and the function raises the [RuntimeError] of line
    209, whose text embeds [str] of the last error caught; and an attempt
    whose error carries another code, or none that can be read, is the last
    one (the only one, when it is the first) and the function raises. The
    attempts are counted in the history, and each of them asked for one
    application instance. *)
Theorem convert_pub_to_html_retry_bound
    (pub_path output_dir : string) (format_constant max_retries : Z)
    (w w0 : world) (output_base : string) (r : outcome string) (fr : frame) :
  (0 ≤ max_retries)%Z →
  convert_prelude pl pub_path output_dir w = (Return (inr output_base), w0) →
  convert_pub_to_html_frame pl ext pub_path output_dir format_constant
                            max_retries w = (r, fr) →
  dispatch_count (w_calls (f_world fr)) =
    (dispatch_count (w_calls w) + List.length (f_history fr))%nat ∧
  (Forall failed_transient (f_history fr) →
     Z.of_nat (List.length (f_history fr)) = max_retries ∧
     r = Raise (final_error max_retries (last_failure (f_history fr) None))) ∧
  (∀ (pre : list attempt_result) e post,
     f_history fr = (pre ++ Failed e :: post)%list →
     carries_code e modal_dialog_code = false →
     post = [] ∧ List.length (f_history fr) = S (List.length pre) ∧
     ∃ e', r = Raise e').
Proof.
  intros Hpos Hpre Hrun. unfold convert_pub_to_html_frame in Hrun.
  rewrite Hpre in Hrun. unfold retry_loop in Hrun.
  destruct (convert_prelude_calls _ _ _ _ _ Hpre) as [Hcalls _].
  pose proof (attempts_from_hoare pl ext (path_resolve pl pub_path) output_base
                format_constant max_retries (Z.to_nat max_retries) 0
                (dispatch_count (w_calls w0)) [] None (initial_frame w0))
    as H.
  rewrite Hrun in H. simpl in H.
  destruct H as (new & (Hc & Hh & Hl) & H1 & H2); [by repeat split|].
  simpl in Hh. rewrite Hh. rewrite <- Hcalls. split; [done|]. split.
  - intros Hall. destruct (H1 Hall) as [Hn ->]. rewrite Hn. split; [lia|done].
  - intros pre e post -> He. destruct (H2 pre e post eq_refl He) as [-> Hr].
    rewrite length_app. simpl. split; [done|]. split; [lia|done].
Qed.

End Supervisor.

Lemma convert_pub_to_html_retry_bound_witness :
  let transient :=
    convert_pub_to_html_frame Demo.pathlib
      (Demo.failing_dispatch Demo.modal_dialog_error) "/in/a.pub" "/out" 7 3
      Demo.fresh in
  let other :=
    convert_pub_to_html_frame Demo.pathlib
      (Demo.failing_dispatch Demo.other_com_error) "/in/a.pub" "/out" 7 3
      Demo.fresh in
  (Z.of_nat (List.length (f_history transient.2)) = 3%Z ∧
   transient.1 =
     Raise (final_error 3 (last_failure (f_history transient.2) None))) ∧
  (List.length (f_history other.2) = 1%nat ∧ ∃ e', other.1 = Raise e').
Proof.
  intros transient other. split.
  - refine (proj1 (proj2 (convert_pub_to_html_retry_bound Demo.pathlib
              (Demo.failing_dispatch Demo.modal_dialog_error)
              "/in/a.pub" "/out" 7 3 Demo.fresh _ _ transient.1 transient.2
              _ _ _)) _).
    + lia.
    + vm_compute. reflexivity.
    + apply surjective_pairing.
    + vm_compute. repeat constructor.
  - refine (proj2 (proj2 (proj2 (convert_pub_to_html_retry_bound Demo.pathlib
              (Demo.failing_dispatch Demo.other_com_error)
              "/in/a.pub" "/out" 7 3 Demo.fresh _ _ other.1 other.2
              _ _ _)) [] Demo.other_com_error [] _ _)).
    + lia.
    + vm_compute. reflexivity.
    + apply surjective_pairing.
    + vm_compute. reflexivity.
    + vm_compute. reflexivity.
Defined.

(** ** The short circuit and idempotence *)

Section Idempotence.

Context (pl : PathLib) (ext : External).

Lemma already_converted_insert fs p output_base :
  fs !! p = None →
  already_converted fs output_base = true →
  already_converted (<[p := Dir []]> fs) output_base = true.
Proof.
  intros Hp. unfold already_converted, fs_exists.
  intros [H1 H2]%andb_true_iff.
  rewrite !lookup_insert_ne; [by rewrite H1, H2| |].
  - intros ->. by rewrite Hp in H2.
  - intros ->. by rewrite Hp in H1.
Qed.

Lemma os_makedirs_run p w :
  w_fs w !! p ≠ Some File →
  ∃ w', os_makedirs p w = (Return tt, w') ∧
        w_calls w' = w_calls w ∧ w_procs w' = w_procs w ∧
        w_out w' = w_out w ∧
        ∀ output_base, already_converted (w_fs w) output_base = true →
                       already_converted (w_fs w') output_base = true.
Proof.
  intros Hp. unfold os_makedirs.
  destruct (w_fs w !! p) as [[|l]|] eqn:E; [done| |]; eexists; split; eauto.
  simpl. repeat split; auto. intros ob. by apply already_converted_insert.
Qed.

Lemma convert_prelude_short pub_path output_dir w :
  reaches_check pl pub_path output_dir w →
  already_converted (w_fs w) (output_base_of pl pub_path output_dir) = true →
  ∃ w', convert_prelude pl pub_path output_dir w =
          (Return (inl (output_base_of pl pub_path output_dir +:+ ".htm")), w') ∧
        w_calls w' = w_calls w ∧ w_procs w' = w_procs w.
Proof.
  intros (Hex & Hext & Hdir) Hconv.
  unfold convert_prelude, bind, print, modify, os_path_exists. simpl.
  rewrite Hex, Hext. simpl.
  destruct (os_makedirs_run (path_resolve pl output_dir)
              (World (w_fs w) (w_procs w) (w_calls w) (w_walks w) (w_mkdirs w)
                 ((w_out w ++ ["Input file path: " +:+ path_resolve pl pub_path])
                    ++ ["Output directory: " +:+ path_resolve pl output_dir])
                 (w_err w)) Hdir)
    as (w1 & -> & Hc1 & Hp1 & _ & Hconv1).
  simpl in *.
  match goal with
  | |- context [check_output_exists ?ob ?x] =>
      destruct (check_output_exists_run ob x) as (v & -> & Hv)
  end.
  simpl in Hv. fold (output_base_of pl pub_path output_dir) in Hv.
  rewrite (Hconv1 _ Hconv) in Hv. fold (output_base_of pl pub_path output_dir).
  rewrite Hv. simpl. eauto.
Qed.

Lemma hoare_bind_any {S A B} (P : S → Prop) Q (m : M S A) (k : A → M S B) :
  (∀ a, hoare (λ _, True) (k a) Q) →
  (∀ e s, Q (Raise e) s) →
  hoare P (bind m k) Q.
Proof.
  intros Hk He. eapply hoare_bind with (R := λ _ _, True); [done| |auto].
  intros a. apply Hk.
Qed.

Section Loop.

Context (pub_path output_base : string) (format_constant max_retries : Z).
Context (Hrel : releases_leave_files ext).

Lemma converted_through :
  through ext is_release
          (λ w, already_converted (w_fs w) output_base = true).
Proof.
  split; try by intros ? w Hw.
  intros c Hc w Hw. unfold com.
  pose proof (Hrel c (w_calls w) (w_fs w) (w_procs w) Hc) as E.
  destruct (respond ext c _ _ _) as [[[e|v] fs] ps]; simpl in *; by subst.
Qed.

Lemma attempt_try_success attempt :
  hoare (λ _, True)
        (attempt_try pl ext pub_path output_base format_constant max_retries
                     attempt)
        (success_post output_base).
Proof.
  unfold attempt_try.
  do 14 (apply hoare_bind_any; [intros ?|by intros ? ? ?]).
  intros fr _ p. unfold bind, liftw.
  destruct (validate_html_run output_base (f_world fr))
    as [[Hc [w' E]]|[_ [msg E]]]; rewrite E; simpl; [|done].
  intros [= <-]. split; [done|].
  by destruct (validate_html_world _ _ _ _ E) as [-> _].
Qed.

Lemma attempt_except_no_return attempt e :
  hoare (λ _, True) (attempt_except ext attempt e)
        (attempt_success_post output_base).
Proof.
  intros fr _ p Hp.
  pose proof (attempt_except_hoare ext attempt e
                (dispatch_count (w_calls (f_world fr)))
                (f_history fr) (f_last_error fr) fr) as [_ H];
    [by repeat split|].
  rewrite Hp in H.
  destruct (carries_code e modal_dialog_code); [discriminate|].
  destruct H as [H|[e' H]]; discriminate.
Qed.

Lemma attempt_finally_converted fr :
  already_converted (w_fs (f_world fr)) output_base = true →
  ∃ fr', attempt_finally ext fr = (Return tt, fr') ∧
         already_converted (w_fs (f_world fr')) output_base = true.
Proof.
  intros Hc. pose proof converted_through as T.
  assert (returns (framed (λ w, already_converted (w_fs w) output_base = true)
                          (f_history fr) (f_last_error fr))
                  (attempt_finally ext)) as H.
  { unfold attempt_finally.
    apply returns_bind; [eapply liftw_returns, print_returns; eauto|intros _].
    apply returns_try_except.
    - eapply release_keeps; eauto.
    - intros e. eapply liftw_returns, eprint_returns; eauto. }
  destruct (H fr) as [(Hc' & _) [[] Hr]]; [by repeat split|].
  exists (attempt_finally ext fr).2. split; [|done].
  rewrite <- Hr. apply surjective_pairing.
Qed.

Lemma attempt_once_success attempt :
  hoare (λ _, True)
        (attempt_once pl ext pub_path output_base format_constant max_retries
                      attempt)
        (attempt_success_post output_base).
Proof.
  unfold attempt_once.
  do 2 (apply hoare_bind_any; [intros ?|by intros ? ? ?]).
  eapply hoare_try_finally with (R := attempt_success_post output_base).
  - eapply hoare_try_except
      with (R := λ r fr, match r with
                         | Return _ => attempt_success_post output_base r fr
                         | Raise _ => True
                         end).
    + eapply hoare_bind; [apply attempt_try_success| |done].
      intros p fr Hp q [= <-]. simpl. by apply Hp.
    + done.
    + intros e. eapply hoare_conseq; [apply attempt_except_no_return|done..].
  - intros r fr Hr.
    destruct (attempt_finally ext fr) as [[[]|e] fr'] eqn:E; simpl;
      [|by intros ? ?].
    intros p Hp. destruct (Hr p Hp) as [-> Hc]. split; [done|].
    destruct (attempt_finally_converted fr Hc) as (fr'' & E' & Hc').
    rewrite E in E'. by simplify_eq.
Qed.

Lemma attempts_from_success n attempt :
  hoare (λ _, True)
        (attempts_from pl ext pub_path output_base format_constant max_retries
                       n attempt)
        (success_post output_base).
Proof.
  revert attempt. induction n as [|n IH]; intros attempt; simpl.
  - by intros fr _ p.
  - eapply hoare_bind; [apply attempt_once_success| |by intros ? ? ? ?].
    intros [p| |] fr Hfr.
    + intros q [= <-]. by apply Hfr.
    + by intros q.
    + by apply IH.
Qed.

End Loop.

Lemma convert_prelude_inv pub_path output_dir w x w' :
  convert_prelude pl pub_path output_dir w = (Return x, w') →
  match x with
  | inl p =>
      p = output_base_of pl pub_path output_dir +:+ ".htm" ∧
      already_converted (w_fs w') (output_base_of pl pub_path output_dir) = true
  | inr output_base => output_base = output_base_of pl pub_path output_dir
  end.
Proof.
  unfold convert_prelude, bind, print, modify, os_path_exists, throw. simpl.
  destruct (fs_exists _ _); simpl; [|done].
  destruct (PyStr.endswith _ _); simpl; [|done].
  destruct (os_makedirs _ _) as [[[]|e] w1]; simpl; [|done].
  match goal with
  | |- context [check_output_exists ?ob ?y] =>
      destruct (check_output_exists_run ob y) as (v & -> & Hv)
  end.
  simpl in *. destruct (truthy v); simpl; intros [= <- <-]; [|done].
  simpl. by split.
Qed.

(** C2. Idempotence. (1) A call that reaches the already-converted check
    and finds the output in place returns [output_base + '.htm'] with the
    history of automation calls as it was: no instance creation, no [Open],
    no [SaveAs]. (2) When [Close] and [Quit] leave the filesystem as it is,
    a call made where a successful call ended, and reaching the check
    again, returns the same path without any automation call. *)
Theorem convert_pub_to_html_idempotent
    (pub_path output_dir : string) (format_constant max_retries : Z) :
  (∀ w,
     reaches_check pl pub_path output_dir w →
     already_converted (w_fs w) (output_base_of pl pub_path output_dir) = true →
     ∃ w',
       convert_pub_to_html pl ext pub_path output_dir format_constant
                           max_retries w
         = (Return (output_base_of pl pub_path output_dir +:+ ".htm"), w') ∧
       w_calls w' = w_calls w ∧ w_procs w' = w_procs w) ∧
  (releases_leave_files ext →
   ∀ w p w1,
     convert_pub_to_html pl ext pub_path output_dir format_constant
                         max_retries w = (Return p, w1) →
     reaches_check pl pub_path output_dir w1 →
     ∃ w2,
       convert_pub_to_html pl ext pub_path output_dir format_constant
                           max_retries w1 = (Return p, w2) ∧
       w_calls w2 = w_calls w1 ∧ w_procs w2 = w_procs w1).
Proof.
  assert (∀ w,
     reaches_check pl pub_path output_dir w →
     already_converted (w_fs w) (output_base_of pl pub_path output_dir) = true →
     ∃ w',
       convert_pub_to_html pl ext pub_path output_dir format_constant
                           max_retries w
         = (Return (output_base_of pl pub_path output_dir +:+ ".htm"), w') ∧
       w_calls w' = w_calls w ∧ w_procs w' = w_procs w) as Hshort.
  { intros w Hw Hc.
    destruct (convert_prelude_short _ _ _ Hw Hc) as (w' & E & ? & ?).
    exists w'. unfold convert_pub_to_html, convert_pub_to_html_frame.
    by rewrite E. }
  split; [exact Hshort|].
  intros Hrel w p w1 Hrun Hw1.
  assert (p = output_base_of pl pub_path output_dir +:+ ".htm" ∧
          already_converted (w_fs w1) (output_base_of pl pub_path output_dir)
            = true) as [-> Hc].
  { unfold convert_pub_to_html, convert_pub_to_html_frame in Hrun.
    destruct (convert_prelude pl pub_path output_dir w) as [[[q|ob]|e] w0] eqn:E.
    - simpl in Hrun. injection Hrun as <- <-.
      apply (convert_prelude_inv _ _ _ _ _ E).
    - pose proof (convert_prelude_inv _ _ _ _ _ E) as ->.
      pose proof (attempts_from_success (path_resolve pl pub_path)
                    (output_base_of pl pub_path output_dir) format_constant
                    max_retries Hrel (Z.to_nat max_retries) 0
                    (initial_frame w0) I) as H.
      unfold retry_loop in Hrun.
      destruct (attempts_from _ _ _ _ _ _ _ _ _) as [r fr].
      injection Hrun as -> <-. by apply H.
    - simpl in Hrun. discriminate. }
  by apply Hshort.
Qed.

End Idempotence.

Lemma convert_pub_to_html_idempotent_witness :
  (∃ w',
     convert_pub_to_html Demo.pathlib Demo.working "/in/a.pub" "/out" 7 3
                         Demo.converted = (Return "/out/a.htm", w') ∧
     w_calls w' = [] ∧ w_procs w' = []) ∧
  (let first := convert_pub_to_html Demo.pathlib Demo.working "/in/a.pub"
                                    "/out" 7 3 Demo.fresh in
   ∃ w2,
     convert_pub_to_html Demo.pathlib Demo.working "/in/a.pub" "/out" 7 3
                         first.2 = (Return "/out/a.htm", w2) ∧
     w_calls w2 = w_calls first.2 ∧ w_procs w2 = w_procs first.2).
Proof.
  split.
  - refine (proj1 (convert_pub_to_html_idempotent Demo.pathlib Demo.working
                     "/in/a.pub" "/out" 7 3) Demo.converted _ _).
    + repeat split; vm_compute; congruence.
    + vm_compute. reflexivity.
  - intros first.
    refine (proj2 (convert_pub_to_html_idempotent Demo.pathlib Demo.working
                     "/in/a.pub" "/out" 7 3) _ Demo.fresh "/out/a.htm"
                  first.2 _ _).
    + intros [] calls fs ps Hc; try discriminate; reflexivity.
    + vm_compute. reflexivity.
    + repeat split; vm_compute; congruence.
Defined.


(** ** Release of the handles *)

Section Release.

Context (ext : External).

(** With a document and an instance in hand and a [Close] that works, both
    are released, in this order. *)
Lemma release_both fr d p :
  f_doc fr = Some d → f_publisher fr = Some p →
  (∀ e fs ps, respond ext (Close d) (w_calls (f_world fr)) (w_fs (f_world fr))
                (w_procs (f_world fr)) ≠ (inl e, fs, ps)) →
  w_calls (f_world (release ext fr).2) =
    (w_calls (f_world fr) ++ [Close d; Quit p])%list.
Proof.
  intros Hd Hp Hok. unfold release, bind, get, liftw, com, ret. simpl.
  rewrite Hd, Hp. simpl.
  destruct (respond ext (Close d) _ _ _) as [[[e|v] fs] ps] eqn:E; simpl.
  - by destruct (Hok e fs ps).
  - destruct (respond ext (Quit p) _ _ _) as [[[e|v'] fs'] ps']; simpl;
      by rewrite <- app_assoc.
Qed.

(** When [Close] raises, [Quit] is not called: the [try] block holding both
    is left at once. *)
Lemma release_close_raises fr d e fs ps :
  f_doc fr = Some d →
  respond ext (Close d) (w_calls (f_world fr)) (w_fs (f_world fr))
          (w_procs (f_world fr)) = (inl e, fs, ps) →
  (release ext fr).1 = Raise e ∧
  w_calls (f_world (release ext fr).2) = (w_calls (f_world fr) ++ [Close d])%list.
Proof.
  intros Hd E. unfold release, bind, get, liftw, com. simpl.
  rewrite Hd. simpl. by rewrite E.
Qed.

End Release.

(** C8, at an application whose [SaveAs] fails and whose [Close] fails too:
    the instance and the document were acquired, [Close] is called in the
    [except] block and again in the [finally] block, and [Quit] is never
    called; the function raises the error of line 209. *)
Theorem release_skips_quit_after_failed_close :
  let run :=
    convert_pub_to_html Demo.pathlib (Demo.failing_close Demo.other_com_error)
                        "/in/a.pub" "/out" 7 3 Demo.fresh in
  w_calls run.2 =
    [EnsureDispatch "Publisher.Application"; SetAutomationSecurity 1 3;
     Open 1 "/in/a.pub" [false; false]; SaveAs 2 "/out/a" 7;
     Close 2; Close 2] ∧
  ¬ In (Quit 1) (w_calls run.2) ∧
  run.1 = Raise (final_error 3 (Some Demo.other_com_error)).
Proof.
  intros run.
  assert (w_calls run.2 =
    [EnsureDispatch "Publisher.Application"; SetAutomationSecurity 1 3;
     Open 1 "/in/a.pub" [false; false]; SaveAs 2 "/out/a" 7;
     Close 2; Close 2]) as E by (vm_compute; reflexivity).
  split; [exact E|]. split.
  - rewrite E. simpl. intuition discriminate.
  - vm_compute. reflexivity.
Qed.

(** ** The tree walker without matching files *)

Section NoFiles.

Context (pl : PathLib) (ext : External).

Lemma count_matching_from triples z :
  fold_left (λ count t,
               (count + Z.of_nat (List.length (filter is_pub t.2)))%Z)
            triples z
  = (z + count_matching triples)%Z.
Proof.
  unfold count_matching. revert z.
  induction triples as [|t ts IH]; intros z; simpl; [lia|].
  rewrite (IH (z + _)%Z), (IH (0 + _)%Z). lia.
Qed.

Lemma count_matching_cons t ts :
  count_matching (t :: ts) =
  (Z.of_nat (List.length (filter is_pub t.2)) + count_matching ts)%Z.
Proof. unfold count_matching at 1. simpl. by rewrite count_matching_from. Qed.

Lemma filter_is_pub_none files :
  Forall (λ f, is_pub f = false) files → filter is_pub files = [].
Proof.
  induction 1 as [|f fs Hf _ IH]; [done|].
  rewrite filter_cons. destruct (decide (is_pub f)) as [H|H]; [|done].
  rewrite Hf in H. done.
Qed.

Lemma count_matching_none triples :
  no_pub_files triples → count_matching triples = 0%Z.
Proof.
  induction 1 as [|t ts Ht _ IH]; [done|].
  rewrite count_matching_cons, IH, (filter_is_pub_none _ Ht). done.
Qed.

(** C6. When the input root exists and no file of the tree has the [.pub]
    extension, [convert_directory] returns [(0, 0)]; the tree was walked
    once, no directory was created, and the filesystem, the process table
    and the history of automation calls are as they were. *)
Theorem convert_directory_no_files (input_path output_path : string) (w : world) :
  fs_exists (w_fs w) (path_resolve pl input_path) = true →
  no_pub_files (os_walk pl (w_fs w)
                  (path_resolve pl (path_resolve pl input_path))) →
  ∃ w',
    convert_directory pl ext input_path output_path w = (Return (0%Z, 0%Z), w') ∧
    w_walks w' = (w_walks w ++ [path_resolve pl (path_resolve pl input_path)])%list ∧
    w_mkdirs w' = w_mkdirs w ∧ w_fs w' = w_fs w ∧
    w_calls w' = w_calls w ∧ w_procs w' = w_procs w.
Proof.
  intros Hex Hnone. apply count_matching_none in Hnone.
  unfold convert_directory, convert_directory_tally, count_pub_files, walk,
    print, os_path_exists, bind, modify, ret. simpl.
  rewrite Hex. simpl. rewrite Hnone. simpl. eauto 10.
Qed.

End NoFiles.

Lemma convert_directory_no_files_witness :
  ∃ w',
    convert_directory Demo.pathlib Demo.working "/in" "/out"
      (Demo.world_of (<["/in/readme.txt" := File]>
                        (<["/in" := Dir ["readme.txt"]]> ∅)))
      = (Return (0%Z, 0%Z), w') ∧
    w_walks w' = ["/in"] ∧ w_mkdirs w' = [] ∧
    w_fs w' = <["/in/readme.txt" := File]> (<["/in" := Dir ["readme.txt"]]> ∅) ∧
    w_calls w' = [] ∧ w_procs w' = [].
Proof.
  refine (convert_directory_no_files Demo.pathlib Demo.working "/in" "/out"
            (Demo.world_of (<["/in/readme.txt" := File]>
                              (<["/in" := Dir ["readme.txt"]]> ∅))) _ _).
  - vm_compute. reflexivity.
  - vm_compute. repeat constructor.
Defined.

(** ** The filter of the format-probing tool *)

Lemma pretty_N_go_ne_letter x s s' :
  s ≠ String "N" s' → pretty_N_go x s ≠ String "N" s'.
Proof.
  revert s. induction (N.lt_wf_0 x) as [x _ IH]. intros s Hs.
  destruct (decide (x = 0%N)) as [->|Hx]; [by rewrite pretty_N_go_0|].
  rewrite pretty_N_go_step by lia. apply IH; [apply N.div_lt; lia|].
  unfold pretty_N_char. repeat case_match; discriminate.
Qed.

Lemma pretty_Z_not_None (z : Z) : pretty z ≠ "None".
Proof.
  destruct z as [|p|p]; [done| |done].
  unfold pretty, pretty_Z, pretty, pretty_positive, pretty, pretty_N.
  case_decide; [done|]. by apply pretty_N_go_ne_letter.
Qed.

(** The values that print as [None]: [None] itself and the string of that
    text. *)
Lemma pyval_str_None v :
  pyval_str v = "None" ↔ v = PyNone ∨ v = PyStr "None".
Proof.
  split.
  - destruct v as [|z|s|l]; simpl; auto.
    + intros H. by destruct (pretty_Z_not_None z).
    + intros ->. auto.
    + by destruct l as [|x [|y l]].
  - by intros [->| ->].
Qed.

Lemma probe_error_None e :
  probe_error e = "COM Error: None" ↔
  excepinfo e = Some PyNone ∨ excepinfo e = Some (PyStr "None") ∨
  (excepinfo e = None ∧ exn_str e = "COM Error: None").
Proof.
  unfold probe_error. destruct (excepinfo e) as [v|].
  - split.
    + intros [= H]. apply pyval_str_None in H as [->| ->]; auto.
    + intros [[= ->]|[[= ->]|[[=] _]]]; done.
  - split; [auto|]. by intros [[=]|[[=]|[_ ->]]].
Qed.

Section Probing.

Context (pl : PathLib) (ext : External) (pr : Probe).

Lemma test_format_constant_result pub_path output_dir k w :
  (test_format_constant pl ext pr pub_path output_dir k w).1 =
  Return match probe_outcome pl ext pr pub_path output_dir k w with
         | Return files => ProbeResult k files None
         | Raise e => ProbeResult k [] (Some (probe_error e))
         end.
Proof.
  unfold test_format_constant, probe_outcome, try_finally, try_except, bind,
    ret.
  destruct (probe_try pl ext pr pub_path output_dir k (initial_frame w))
    as [[files|e] fr]; simpl.
  - by destruct (release ext fr) as [[[]|e'] fr'].
  - by destruct (release ext fr) as [[[]|e'] fr'].
Qed.

(** C9, as the code has it. [test_format_constant] always returns a result;
    its error text is ["COM Error: None"] exactly when the [try] block raised
    an exception whose [excepinfo] is [None] (or the string of that text),
    or one without [excepinfo] whose [str] is that text; and the filter of
    line 145 discards exactly these results, which have no files. *)
Theorem probe_filter_discards_exactly
    (pub_path output_dir : string) (format_constant : Z) (w : world) :
  ∃ result,
    (test_format_constant pl ext pr pub_path output_dir format_constant w).1
      = Return result ∧
    (r_error result = Some "COM Error: None" ↔
     ∃ e, probe_outcome pl ext pr pub_path output_dir format_constant w
            = Raise e ∧
          (excepinfo e = Some PyNone ∨ excepinfo e = Some (PyStr "None") ∨
           (excepinfo e = None ∧ exn_str e = "COM Error: None"))) ∧
    (interesting result = false ↔ r_error result = Some "COM Error: None").
Proof.
  eexists. split; [apply test_format_constant_result|].
  destruct (probe_outcome pl ext pr pub_path output_dir format_constant w)
    as [files|e]; simpl.
  - split.
    + split; [done|]. by intros (e & [=] & _).
    + unfold interesting. simpl. by destruct files.
  - split.
    + split.
      * intros [= H]. exists e. split; [done|]. by apply probe_error_None.
      * intros (e' & [= <-] & H). f_equal. by apply probe_error_None.
    + unfold interesting. simpl.
      destruct (String.eqb_spec (probe_error e) "COM Error: None") as [->|Hne];
        simpl; split; try done.
      intros [= H]. done.
Qed.

End Probing.

(** C9 does not hold as the specification words it (the comparison "can
    never match"): when no instance can be created, the error raised has no
    exception information, the error text of the result is exactly
    ["COM Error: None"], the filter discards the result, and the exploration
    of that constant keeps nothing. *)
Lemma probe_filter_is_not_dead :
  let w := Demo.world_of (<["/out" := Dir []]> (w_fs Demo.fresh)) in
  let ext := Demo.failing_dispatch Demo.invalid_class_error in
  (test_format_constant Demo.pathlib ext Demo.probe "/in/a.pub" "/out" 7 w).1
    = Return (ProbeResult 7 [] (Some "COM Error: None")) ∧
  interesting (ProbeResult 7 [] (Some "COM Error: None")) = false ∧
  (explore_format_constants Demo.pathlib ext Demo.probe "/in/a.pub" "/out" 7 7
                            w).1 = Return [].
Proof. vm_compute. done. Qed.

(** ** Invariants through a whole conversion *)

Section Everywhere.

Context (pl : PathLib) (ext : External).
Context (I : world → Prop) (HI : through ext (λ _, true) I).
Context (Hmk : ∀ p, keeps I (os_makedirs p)).

Lemma liftw_worldly {A} (m : M world A) :
  keeps I m → keeps (worldly I) (liftw m).
Proof.
  intros Hm fr Hfr. specialize (Hm _ Hfr). unfold liftw.
  by destruct (m (f_world fr)).
Qed.

Lemma modify_worldly (f : frame → frame) :
  (∀ fr, f_world (f fr) = f_world fr) → keeps (worldly I) (modify f).
Proof. intros Hf fr Hfr. unfold worldly. simpl. by rewrite Hf. Qed.

Lemma pure_worldly {A} (r : outcome A) : keeps (worldly I) (λ fr, (r, fr)).
Proof. by intros fr Hfr. Qed.

Ltac worldly :=
  repeat first
    [ assumption
    | solve [auto]
    | lazymatch goal with
      | |- keeps _ (bind _ _) => apply keeps_bind; [|intros ?]
      | |- keeps _ (try_except _ _) => apply keeps_try_except; [|intros ?]
      | |- keeps _ (try_finally _ _) => apply keeps_try_finally
      | |- keeps _ (liftw _) => apply liftw_worldly
      | |- keeps _ (ret _) => apply keeps_ret
      | |- keeps _ (throw _) => apply keeps_throw
      | |- keeps _ get => apply keeps_get
      | |- keeps _ (validate_html _) => eapply validate_html_keeps; eauto
      | |- keeps _ (print _) => eapply returns_keeps, print_returns; eauto
      | |- keeps _ (eprint _) => eapply returns_keeps, eprint_returns; eauto
      | |- keeps _ (print_each _ _) =>
          eapply returns_keeps, print_each_returns; eauto
      | |- keeps _ kill_publisher_processes =>
          eapply returns_keeps, kill_publisher_processes_returns; eauto
      | |- keeps _ (method _ _ _ _) => eapply method_keeps; eauto
      | |- keeps _ (com _ _) => eapply (through_com _ _ _ HI); eauto
      | |- keeps _ (check_output_files _ _) =>
          eapply returns_keeps, check_output_files_returns; eauto
      | |- keeps _ (set_publisher _) => apply modify_worldly; done
      | |- keeps _ (set_doc _) => apply modify_worldly; done
      | |- keeps _ (set_last_error _) => apply modify_worldly; done
      | |- keeps _ (record_attempt _) => apply modify_worldly; done
      | |- keeps _ (λ fr, (_, fr)) => apply pure_worldly
      | |- keeps _ (match ?l with _ => _ end) => destruct l
      end ].

Lemma release_worldly : keeps (worldly I) (release ext).
Proof. unfold release. worldly. Qed.

Lemma attempt_try_worldly pub_path output_base fmt retries attempt :
  keeps (worldly I)
        (attempt_try pl ext pub_path output_base fmt retries attempt).
Proof.
  unfold attempt_try. worldly.
Qed.

Lemma attempt_except_worldly attempt e :
  keeps (worldly I) (attempt_except ext attempt e).
Proof.
  unfold attempt_except.
  pose proof release_worldly. worldly.
Qed.

Lemma attempt_once_worldly pub_path output_base fmt retries attempt :
  keeps (worldly I)
        (attempt_once pl ext pub_path output_base fmt retries attempt).
Proof.
  pose proof release_worldly.
  pose proof (attempt_try_worldly pub_path output_base fmt retries attempt).
  pose proof (attempt_except_worldly attempt).
  unfold attempt_once, attempt_finally.
  worldly.
Qed.

Lemma attempts_from_worldly pub_path output_base fmt retries n attempt :
  keeps (worldly I)
        (attempts_from pl ext pub_path output_base fmt retries n attempt).
Proof.
  revert attempt. induction n as [|n IH]; intros attempt; simpl.
  - unfold exhausted. worldly.
  - apply keeps_bind; [apply attempt_once_worldly|].
    intros [p| |]; [apply keeps_ret|unfold exhausted; worldly|apply IH].
Qed.

Lemma convert_pub_to_html_keeps pub_path output_dir fmt retries :
  keeps I (convert_pub_to_html pl ext pub_path output_dir fmt retries).
Proof.
  intros w Hw. unfold convert_pub_to_html, convert_pub_to_html_frame.
  pose proof (convert_prelude_keeps pl I pub_path output_dir
                (through_out _ _ _ HI) Hmk w Hw) as Hpre.
  destruct (convert_prelude pl pub_path output_dir w) as [[[p|ob]|e] w0];
    simpl in *; try done.
  pose proof (attempts_from_worldly (path_resolve pl pub_path) ob fmt retries
                (Z.to_nat retries) 0 (initial_frame w0) Hpre) as H.
  unfold retry_loop. by destruct (attempts_from _ _ _ _ _ _ _ _ _).
Qed.

End Everywhere.

(** ** The tree walker *)

Lemma skipped_among_cons v l :
  skipped_among (v :: l) =
  ((if already_converted v.2 v.1 then 1 else 0) + skipped_among l)%Z.
Proof.
  unfold skipped_among. rewrite filter_cons.
  destruct (already_converted v.2 v.1); simpl.
  - destruct (decide (true = true)); [simpl; lia|done].
  - destruct (decide (false = true)); [done|lia].
Qed.

Lemma skipped_among_app l1 l2 :
  skipped_among (l1 ++ l2)%list = (skipped_among l1 + skipped_among l2)%Z.
Proof.
  induction l1 as [|v l1 IH]; simpl; [done|].
  rewrite !skipped_among_cons, IH. lia.
Qed.

Lemma skipped_among_bounds l :
  (0 ≤ skipped_among l ≤ Z.of_nat (List.length l))%Z.
Proof.
  induction l as [|v l IH]; [done|].
  rewrite skipped_among_cons. simpl List.length.
  destruct (already_converted v.2 v.1); lia.
Qed.

Lemma tally_post_refl t : tally_post t 0 (Return t).
Proof.
  exists t, []. rewrite app_nil_r. unfold skipped_among. simpl.
  repeat split; lia.
Qed.

Lemma tally_post_trans t0 t1 n1 n2 r :
  tally_post t0 n1 (Return t1) → tally_post t1 n2 r →
  tally_post t0 (n1 + n2) r.
Proof.
  intros (? & new1 & [= <-] & Hv1 & Hn1 & Hs1 & Hc1)
         (t & new2 & -> & Hv2 & Hn2 & Hs2 & Hc2).
  exists t, (new1 ++ new2)%list. rewrite skipped_among_app, length_app.
  rewrite Hv2, Hv1, Hs2, Hs1, Hc2, Hc1, <- app_assoc.
  repeat split; lia.
Qed.

Lemma matching_count triples :
  count_matching triples = Z.of_nat (matching triples).
Proof.
  induction triples as [|t ts IH]; [done|].
  rewrite count_matching_cons, IH. unfold matching. simpl. lia.
Qed.

Section Walker.

Context (pl : PathLib) (ext : External) (dirs : list string).
Context (Hext : keeps_clear ext dirs).

Local Abbreviation clear := (clear_world dirs).

Lemma clear_through : through ext (λ _, true) clear.
Proof.
  split; try by intros ? w Hw.
  intros c _ w Hw. unfold clear, com in *.
  pose proof (Hext c (w_calls w) (w_fs w) (w_procs w) Hw) as H.
  by destruct (respond ext c _ _ _) as [[[e|v] fs] ps].
Qed.

Lemma clear_makedirs p : keeps clear (os_makedirs p).
Proof.
  intros w Hw. unfold clear, os_makedirs in *.
  destruct (w_fs w !! p) as [[|l]|] eqn:E; simpl; try done.
  intros d Hd. destruct (decide (p = d)) as [->|Hne].
  - by rewrite lookup_insert_eq.
  - rewrite lookup_insert_ne by done. by apply Hw.
Qed.

Lemma clear_makedirs_returns p : p ∈ dirs → returns clear (os_makedirs p).
Proof.
  intros Hp w Hw. split; [by apply clear_makedirs|].
  unfold os_makedirs. specialize (Hw p Hp).
  destruct (w_fs w !! p) as [[|l]|]; simpl; [done|by exists tt..].
Qed.

Lemma convert_one_returns pub_file out_dir :
  returns clear
    (try_except
       (let! html_path := convert_pub_to_html pl ext pub_file out_dir 7 3 in
        print ("Converted to: " +:+ html_path))
       (λ e, eprint ("Error converting " +:+ pub_file +:+ ": " +:+ exn_str e))).
Proof.
  pose proof clear_through as T.
  apply returns_try_except.
  - apply keeps_bind.
    + eapply convert_pub_to_html_keeps; eauto using clear_makedirs.
    + intros p. eapply returns_keeps, print_returns; eauto.
  - intros e. eapply eprint_returns; eauto.
Qed.

Lemma bind_pure {S A B} (m : M S A) (k : A → M S B) s a :
  m s = (Return a, s) → bind m k s = k a s.
Proof. intros E. unfold bind. by rewrite E. Qed.

Lemma convert_files_hoare total current_dir out_dir files :
  ∀ t0,
    hoare clear (convert_files pl ext total current_dir out_dir files t0)
          (λ r w, clear w ∧ tally_post t0 (List.length files) r).
Proof.
  pose proof clear_through as T.
  induction files as [|file rest IH]; intros t0 w Hw.
  - split; [done|]. apply tally_post_refl.
  - cbn [convert_files].
    set (ob := path_join pl out_dir (path_stem pl file)).
    destruct (check_output_exists_run ob w) as (v & Hcheck & Hv).
    rewrite (bind_pure (note_visit ob t0) _ w _ eq_refl).
    rewrite (bind_pure (check_output_exists ob) _ w v Hcheck).
    cbn [files_converted files_skipped visited].
    change (List.length (file :: rest)) with (1 + List.length rest)%nat.
    destruct (truthy v) eqn:Ht.
    + match goal with
      | |- context [convert_files _ _ _ _ _ rest ?t] => set (t1 := t)
      end.
      match goal with
      | |- context [(?m w).1] =>
          assert (hoare clear m
                    (λ r w, clear w ∧ tally_post t1 (List.length rest) r)) as H
      end.
      { do 2 (apply returns_then; [eapply print_returns; eauto|intros _]).
        apply IH. }
      destruct (H w Hw) as [Hc Hp]. split; [exact Hc|].
      eapply tally_post_trans; [|exact Hp].
      exists t1, [(ob, w_fs w)]. rewrite skipped_among_cons. simpl.
      rewrite <- Hv. unfold skipped_among. simpl. repeat split; lia.
    + match goal with
      | |- context [convert_files _ _ _ _ _ rest ?t] => set (t1 := t)
      end.
      match goal with
      | |- context [(?m w).1] =>
          assert (hoare clear m
                    (λ r w, clear w ∧ tally_post t1 (List.length rest) r)) as H
      end.
      { do 3 (apply returns_then; [eapply print_returns; eauto|intros _]).
        apply returns_then; [apply convert_one_returns|intros _]. apply IH. }
      destruct (H w Hw) as [Hc Hp]. split; [exact Hc|].
      eapply tally_post_trans; [|exact Hp].
      exists t1, [(ob, w_fs w)]. rewrite skipped_among_cons. simpl.
      rewrite <- Hv. unfold skipped_among. simpl. repeat split; lia.
Qed.

Lemma mirror_dirs_cons input output t rest :
  mirror_dirs pl input output (t :: rest) =
  ((if decide (filter is_pub t.2 ≠ [])
    then [path_join pl output (path_relative_to pl t.1.1 input)] else [])
     ++ mirror_dirs pl input output rest)%list.
Proof.
  unfold mirror_dirs. rewrite filter_cons. by case_decide.
Qed.

Lemma convert_dirs_hoare total input output triples :
  (∀ d, d ∈ mirror_dirs pl input output triples → d ∈ dirs) →
  ∀ t0,
    hoare clear (convert_dirs pl ext total input output triples t0)
          (λ r w, clear w ∧ tally_post t0 (matching triples) r).
Proof.
  pose proof clear_through as T.
  induction triples as [|[[root ds] files] rest IH]; intros Hsub t0.
  - intros w Hw. split; [done|]. apply tally_post_refl.
  - rewrite mirror_dirs_cons in Hsub. simpl in Hsub.
    cbn [convert_dirs].
    do 2 (apply returns_then; [eapply print_returns; eauto|intros _]).
    eapply hoare_bind
      with (R := λ r w, clear w ∧
                        tally_post t0 (List.length (filter is_pub files)) r).
    + destruct (filter is_pub files) as [|f fs] eqn:E.
      * intros w Hw. split; [done|]. apply tally_post_refl.
      * apply returns_then.
        { apply clear_makedirs_returns. apply Hsub.
          destruct (decide (f :: fs ≠ [])) as [_|n]; [set_solver|by destruct n]. }
        intros _. apply convert_files_hoare.
    + intros t1 w [Hw Hp].
      assert (∀ d, d ∈ mirror_dirs pl input output rest → d ∈ dirs) as Hrest
        by (intros d Hd; apply Hsub, elem_of_app; by right).
      destruct (IH Hrest t1 w Hw) as [Hw' Hp'].
      split; [done|].
      change (matching ((root, ds, files) :: rest))
        with (List.length (filter is_pub files) + matching rest)%nat.
      by eapply tally_post_trans.
    + intros e w [_ (t & new & [=] & _)].
Qed.

End Walker.

Section WalkerCounts.

Context (pl : PathLib) (ext : External).

(** C5. When the input root exists (and resolves to itself), and nothing
    stands or is put in the way of the output directories, then for every
    behaviour of the application: [convert_directory] returns; with [N] the
    number of matching files of the input tree and [M] the number of files
    whose output was in place when pass 2 reached them, all [N] files are
    visited and the result is [(N - M, M)], so the two counts sum to [N]. No
    error of a conversion ends the walk. *)
Theorem convert_directory_counts (input_path output_path : string) (w : world) :
  let root := path_resolve pl input_path in
  let triples := os_walk pl (w_fs w) root in
  let out_dirs := mirror_dirs pl root (path_resolve pl output_path) triples in
  path_resolve pl root = root →
  fs_exists (w_fs w) root = true →
  clear_of_files out_dirs (w_fs w) →
  keeps_clear ext out_dirs →
  ∃ t w',
    convert_directory_tally pl ext input_path output_path w = (Return t, w') ∧
    convert_directory pl ext input_path output_path w =
      (Return (files_converted t, files_skipped t), w') ∧
    Z.of_nat (List.length (visited t)) = count_matching triples ∧
    files_skipped t = skipped_among (visited t) ∧
    files_converted t =
      (count_matching triples - skipped_among (visited t))%Z ∧
    (files_converted t + files_skipped t)%Z = count_matching triples.
Proof.
  intros root triples out_dirs Hroot Hex Hclear Hext.
  assert (∃ t w',
    convert_directory_tally pl ext input_path output_path w = (Return t, w') ∧
    tally_post (Tally 0 0 []) (matching triples) (Return t)) as (t & w' & E & Hp).
  { set (m := convert_directory_tally pl ext input_path output_path).
    cut (tally_post (Tally 0 0 []) (matching triples) (m w).1).
    { intros (t & new & E & Hp). exists t, (m w).2. split.
      - rewrite <- E. apply surjective_pairing.
      - by exists t, new. }
    set (same := λ w0 : world, w_fs w0 = w_fs w).
    assert (∀ line, returns same (print line)) as Hprint
      by (intros line w0 Hw0; split; [done|by exists tt]).
    assert (hoare same (walk pl root) (λ r w0, same w0 ∧ r = Return triples))
      as Hwalk.
    { intros w0 Hw0. unfold walk, same in *. simpl. by rewrite Hw0. }
    cut (hoare same m
               (λ r _, tally_post (Tally 0 0 []) (matching triples) r)).
    { intros H. by apply H. }
    unfold m, convert_directory_tally. fold root.
    eapply hoare_bind with (R := λ r w0, same w0 ∧ r = Return true).
    { intros w0 Hw0. unfold os_path_exists, same in *. simpl.
      by rewrite Hw0, Hex. }
    2: by intros ? ? (_ & [=]).
    intros e'. intros w0 (Hw0 & [= ->]). revert w0 Hw0. cbn [negb].
    change (hoare same
              (let! total_files := count_pub_files pl root in
               print EmptyString >>
               print ("Found " +:+ pretty total_files
                        +:+ " Publisher files to convert") >>
               if (total_files =? 0)%Z
               then print "No files to convert" >> ret (Tally 0 0 [])
               else
                 let! triples := walk pl root in
                 let! t := convert_dirs pl ext total_files root
                             (path_resolve pl output_path) triples
                             (Tally 0 0 []) in
                 print EmptyString >>
                 print "Conversion complete:" >>
                 print ("Total files: " +:+ pretty total_files) >>
                 print ("Converted: " +:+ pretty (files_converted t)) >>
                 print ("Skipped: " +:+ pretty (files_skipped t)) >>
                 ret t)
              (λ r _, tally_post (Tally 0 0 []) (matching triples) r)).
    eapply hoare_bind
      with (R := λ r w0, same w0 ∧ r = Return (Z.of_nat (matching triples))).
    { unfold count_pub_files. rewrite Hroot.
      apply returns_then; [apply Hprint|intros _].
      eapply hoare_bind; [apply Hwalk| |by intros ? ? [_ [=]]].
      intros tr w0 [Hw0 [= ->]]. simpl. by rewrite matching_count. }
    2: by intros ? ? [_ [=]].
    intros total.
    eapply hoare_conseq
      with (P' := λ w0, same w0 ∧ total = Z.of_nat (matching triples))
           (Q' := λ r _, tally_post (Tally 0 0 []) (matching triples) r);
      [|by intros w0 [? [= ->]]|done].
    intros w0 [Hw0 ->]. revert w0 Hw0.
    change (hoare same
              (print EmptyString >>
               print ("Found " +:+ pretty (Z.of_nat (matching triples))
                        +:+ " Publisher files to convert") >>
               if (Z.of_nat (matching triples) =? 0)%Z
               then print "No files to convert" >> ret (Tally 0 0 [])
               else
                 let! triples0 := walk pl root in
                 let! t := convert_dirs pl ext (Z.of_nat (matching triples))
                             root (path_resolve pl output_path) triples0
                             (Tally 0 0 []) in
                 print EmptyString >>
                 print "Conversion complete:" >>
                 print ("Total files: "
                          +:+ pretty (Z.of_nat (matching triples))) >>
                 print ("Converted: " +:+ pretty (files_converted t)) >>
                 print ("Skipped: " +:+ pretty (files_skipped t)) >>
                 ret t)
              (λ r _, tally_post (Tally 0 0 []) (matching triples) r)).
    do 2 (apply returns_then; [apply Hprint|intros _]).
    destruct (Z.of_nat (matching triples) =? 0)%Z eqn:Hz.
    - apply Z.eqb_eq in Hz. assert (matching triples = 0%nat) as -> by lia.
      apply returns_then; [apply Hprint|intros _].
      intros w0 _. apply tally_post_refl.
    - eapply hoare_bind; [apply Hwalk| |by intros ? ? [_ [=]]].
      intros tr.
      eapply hoare_conseq
        with (P' := λ w0, same w0 ∧ tr = triples)
             (Q' := λ r _, tally_post (Tally 0 0 []) (matching triples) r);
        [|by intros w0 [? [= ->]]|done].
      intros w0 [Hw0 ->]. revert w0 Hw0.
      change (hoare same
                (let! t := convert_dirs pl ext (Z.of_nat (matching triples))
                             root (path_resolve pl output_path) triples
                             (Tally 0 0 []) in
                 print EmptyString >>
                 print "Conversion complete:" >>
                 print ("Total files: "
                          +:+ pretty (Z.of_nat (matching triples))) >>
                 print ("Converted: " +:+ pretty (files_converted t)) >>
                 print ("Skipped: " +:+ pretty (files_skipped t)) >>
                 ret t)
                (λ r _, tally_post (Tally 0 0 []) (matching triples) r)).
      eapply hoare_bind
        with (R := λ r _, tally_post (Tally 0 0 []) (matching triples) r).
      + intros w0 Hw0.
        refine (proj2 (convert_dirs_hoare pl ext out_dirs Hext _ root _ triples
                         (λ d Hd, Hd) _ w0 _)).
        unfold same in Hw0. unfold clear_world. by rewrite Hw0.
      + intros t w0 Hp.
        unfold bind, print, modify, ret. simpl. exact Hp.
      + by intros e'' w0 (? & ? & [=] & _). }
  exists t, w'. split; [exact E|]. split.
  { unfold convert_directory, bind. by rewrite E. }
  destruct Hp as (? & new & [= <-] & Hv & Hn & Hs & Hc).
  simpl in Hv, Hs, Hc. rewrite Hv, Hs, Hc, matching_count, Hn.
  pose proof (skipped_among_bounds new). repeat split; lia.
Qed.

End WalkerCounts.

Lemma convert_directory_counts_witness :
  let ext := Demo.failing_dispatch Demo.other_com_error in
  let triples := os_walk Demo.pathlib (w_fs Demo.tree) "/in" in
  ∃ t w',
    convert_directory_tally Demo.pathlib ext "/in" "/out" Demo.tree
      = (Return t, w') ∧
    convert_directory Demo.pathlib ext "/in" "/out" Demo.tree =
      (Return (files_converted t, files_skipped t), w') ∧
    Z.of_nat (List.length (visited t)) = count_matching triples ∧
    files_skipped t = skipped_among (visited t) ∧
    files_converted t =
      (count_matching triples - skipped_among (visited t))%Z ∧
    (files_converted t + files_skipped t)%Z = count_matching triples.
Proof.
  intros ext triples.
  refine (convert_directory_counts Demo.pathlib ext "/in" "/out" Demo.tree
            _ _ _ _).
  - reflexivity.
  - vm_compute. reflexivity.
  - intros d Hd. vm_compute in Hd.
    apply list_elem_of_In in Hd. destruct Hd as [<-|[]].
    vm_compute. discriminate.
  - intros c calls fs ps Hfs. by destruct c.
Defined.

(** The same walk, run: one file is converted (in vain: the application
    fails) and one is skipped. *)
Example convert_directory_runs :
  (convert_directory Demo.pathlib (Demo.failing_dispatch Demo.other_com_error)
                     "/in" "/out" Demo.tree).1 = Return (1%Z, 1%Z).
Proof. vm_compute. reflexivity. Qed.


(** * Further properties *)

(** ** Killing Publisher processes *)

Lemma filter_all {A} (P : A → Prop) `{∀ x, Decision (P x)} (l : list A) :
  (∀ x, x ∈ l → P x) → filter P l = l.
Proof.
  induction l as [|x l IH]; intros Hall; [done|].
  rewrite filter_cons_True by (apply Hall; set_solver).
  f_equal. apply IH. intros y Hy. apply Hall. set_solver.
Qed.

Lemma map_fmap {A B} (f : A → B) (l : list A) : map f l = f <$> l.
Proof. induction l as [|x l IH]; simpl; [done|]. by rewrite IH. Qed.

Lemma kill_each_run ps killed w :
  ∃ w',
    kill_each ps killed w =
      (Return (killed || existsb kill_succeeded ps), w') ∧
    w_fs w' = w_fs w ∧ w_calls w' = w_calls w ∧
    w_walks w' = w_walks w ∧ w_mkdirs w' = w_mkdirs w ∧ w_err w' = w_err w ∧
    w_procs w' =
      filter (λ p, proc_pid p ∉ killed_pids ps) (w_procs w).
Proof.
  revert killed w. induction ps as [|p ps IH]; intros killed w.
  - exists w. simpl. rewrite orb_false_r. repeat split; try done.
    unfold killed_pids. simpl. symmetry. apply filter_all.
    intros q _. set_solver.
  - unfold killed_pids, leaves_table, kill_succeeded in *.
    cbn [kill_each existsb]. rewrite filter_cons.
    destruct (is_mspub p) eqn:Hm; cbn [andb].
    + unfold bind at 1, print at 1, modify at 1.
      destruct (proc_kill p) eqn:Hk.
      * unfold bind at 1, remove_process at 1, modify at 1.
        match goal with
        | |- context [kill_each ps true ?x] =>
            destruct (IH true x) as (w' & -> & ? & ? & ? & ? & ? & Hp)
        end.
        exists w'. simpl in *. rewrite orb_true_r.
        repeat split; try done.
        destruct (decide (true = true)); [|done]. rewrite Hp.
        rewrite list_filter_filter. apply list_filter_iff.
        intros q. simpl. rewrite not_elem_of_cons. tauto.
      * unfold bind at 1, remove_process at 1, modify at 1.
        match goal with
        | |- context [kill_each ps killed ?x] =>
            destruct (IH killed x) as (w' & -> & ? & ? & ? & ? & ? & Hp)
        end.
        exists w'. simpl in *. repeat split; try done.
        destruct (decide (true = true)); [|done]. rewrite Hp.
        rewrite list_filter_filter. apply list_filter_iff.
        intros q. simpl. rewrite not_elem_of_cons. tauto.
      * match goal with
        | |- context [kill_each ps killed ?x] =>
            destruct (IH killed x) as (w' & -> & ? & ? & ? & ? & ? & Hp)
        end.
        exists w'. simpl in *. repeat split; try done.
    + destruct (IH killed w) as (w' & -> & ? & ? & ? & ? & ? & Hp).
      exists w'. simpl. repeat split; try done.
Qed.

Lemma kill_publisher_processes_run (w : world) :
  ∃ b w',
    kill_publisher_processes w = (Return b, w') ∧
    w_fs w' = w_fs w ∧ w_calls w' = w_calls w ∧ w_err w' = w_err w ∧
    w_procs w' =
      filter (λ p, proc_pid p ∉ killed_pids (w_procs w)) (w_procs w) ∧
    b = negb (existsb kill_succeeded (w_procs w) &&
              existsb is_mspub (w_procs w')).
Proof.
  unfold kill_publisher_processes, bind, get.
  destruct (kill_each_run (w_procs w) false w)
    as (w' & -> & ? & ? & ? & ? & ? & Hp).
  simpl. destruct (existsb kill_succeeded (w_procs w)); simpl.
  - destruct (existsb is_mspub (w_procs w')) eqn:E; simpl.
    + eexists _, _. split; [done|]. simpl. by rewrite E.
    + eexists _, _. split; [done|]. simpl. by rewrite E.
  - eexists _, _. split; [done|]. by repeat split.
Qed.


(** When pids are unique, a process that is not a Publisher process stays
    in the table. *)
Theorem kill_publisher_processes_spares_others (w : world) (p : process) :
  NoDup (map proc_pid (w_procs w)) →
  p ∈ w_procs w →
  is_mspub p = false →
  p ∈ w_procs (kill_publisher_processes w).2.
Proof.
  intros Hnd Hp Hm.
  destruct (kill_publisher_processes_run w) as (b & w' & E & _ & _ & _ & Hprocs & _).
  rewrite E. simpl. rewrite Hprocs. apply list_elem_of_filter. split; [|done].
  unfold killed_pids. rewrite map_fmap.
  intros (q & Hpid & Hq)%list_elem_of_fmap.
  apply list_elem_of_filter in Hq as [Hleave Hq].
  assert (p = q) as ->.
  { apply list_elem_of_lookup in Hp as [i Hi]. apply list_elem_of_lookup in Hq as [j Hj].
    assert (i = j) as ->; [|congruence].
    rewrite map_fmap in Hnd.
    eapply NoDup_lookup; [exact Hnd| |];
      rewrite list_lookup_fmap; [by rewrite Hi|by rewrite Hj, Hpid]. }
  unfold leaves_table in Hleave. by rewrite Hm in Hleave.
Qed.

Lemma kill_publisher_processes_spares_others_witness :
  let w := World ∅ [Process 4 "explorer.exe" KillOk;
                    Process 8 "MSPUB.EXE" KillOk] [] [] [] [] [] in
  Process 4 "explorer.exe" KillOk ∈ w_procs (kill_publisher_processes w).2.
Proof.
  intros w.
  apply (kill_publisher_processes_spares_others w).
  - apply NoDup_cons. split; [by intros [=]%list_elem_of_singleton|].
    apply NoDup_singleton.
  - apply list_elem_of_here.
  - vm_compute. reflexivity.
Defined.

(** When no [kill] succeeds (every Publisher process denies access, or is
    already gone), the result is [True], whether or not a Publisher process
    is still running: the second scan is only made after a successful
    [kill]. *)
Theorem kill_publisher_processes_unchecked (w : world) :
  existsb kill_succeeded (w_procs w) = false →
  (kill_publisher_processes w).1 = Return true.
Proof.
  intros H.
  destruct (kill_publisher_processes_run w) as (b & w' & E & _ & _ & _ & _ & ->).
  rewrite E. simpl. by rewrite H.
Qed.

Lemma kill_publisher_processes_unchecked_witness :
  let w := World ∅ [Process 8 "mspub.exe" KillAccessDenied] [] [] [] [] [] in
  (kill_publisher_processes w).1 = Return true ∧
  existsb is_mspub (w_procs (kill_publisher_processes w).2) = true.
Proof.
  intros w. split.
  - apply (kill_publisher_processes_unchecked w). vm_compute. reflexivity.
  - vm_compute. reflexivity.
Defined.

(** ** More on [convert_pub_to_html] *)

Section SupervisorEdges.

Context (pl : PathLib) (ext : External).

(** With [max_retries] zero or negative, [range(max_retries)] is empty: a
    document that is not converted yet is never attempted, whatever the
    application would do, and the function raises the error of line 209
    with the cause [None]. No automation call is made. *)
Theorem convert_pub_to_html_no_attempts
    (pub_path output_dir : string) (format_constant max_retries : Z)
    (w w0 : world) (output_base : string) :
  (max_retries ≤ 0)%Z →
  convert_prelude pl pub_path output_dir w = (Return (inr output_base), w0) →
  convert_pub_to_html pl ext pub_path output_dir format_constant max_retries w
    = (Raise (final_error max_retries None), w0) ∧
  w_calls w0 = w_calls w.
Proof.
  intros Hz Hpre. split.
  - unfold convert_pub_to_html, convert_pub_to_html_frame, retry_loop.
    rewrite Hpre. replace (Z.to_nat max_retries) with 0%nat by lia. done.
  - by destruct (convert_prelude_calls pl _ _ _ _ _ Hpre).
Qed.

(** A regular file where the output directory is to be makes
    [os.makedirs] raise [FileExistsError], after the precondition checks and
    before any automation call. *)
Theorem convert_pub_to_html_output_dir_blocked
    (pub_path output_dir : string) (format_constant max_retries : Z) (w : world) :
  fs_exists (w_fs w) (path_resolve pl pub_path) = true →
  PyStr.endswith (PyStr.lower (path_resolve pl pub_path)) ".pub" = true →
  w_fs w !! path_resolve pl output_dir = Some File →
  ∃ w',
    convert_pub_to_html pl ext pub_path output_dir format_constant max_retries w
      = (Raise (raise_of FileExistsError (path_resolve pl output_dir)), w') ∧
    w_calls w' = w_calls w ∧ w_fs w' = w_fs w.
Proof.
  intros Hex Hext Hdir.
  unfold convert_pub_to_html, convert_pub_to_html_frame, convert_prelude,
    bind, print, modify, os_path_exists, os_makedirs. simpl.
  rewrite Hex, Hext. simpl. rewrite Hdir. simpl. eauto.
Qed.

(** Whenever [convert_pub_to_html] returns, it returns
    [output_base + '.htm'], and the primary file and a non-empty resource
    directory are there when it returns, provided [Close] and [Quit] leave
    the filesystem as it is: success is never reported without the
    output. *)
Theorem convert_pub_to_html_returns_validated
    (pub_path output_dir : string) (format_constant max_retries : Z)
    (w w' : world) (p : string) :
  releases_leave_files ext →
  convert_pub_to_html pl ext pub_path output_dir format_constant max_retries w
    = (Return p, w') →
  p = output_base_of pl pub_path output_dir +:+ ".htm" ∧
  already_converted (w_fs w') (output_base_of pl pub_path output_dir) = true.
Proof.
  intros Hrel Hrun.
  unfold convert_pub_to_html, convert_pub_to_html_frame in Hrun.
  destruct (convert_prelude pl pub_path output_dir w) as [[[q|ob]|e] w0] eqn:E.
  - simpl in Hrun. injection Hrun as <- <-.
    apply (convert_prelude_inv pl _ _ _ _ _ E).
  - pose proof (convert_prelude_inv pl _ _ _ _ _ E) as ->.
    pose proof (attempts_from_success pl ext (path_resolve pl pub_path)
                  (output_base_of pl pub_path output_dir) format_constant
                  max_retries Hrel (Z.to_nat max_retries) 0
                  (initial_frame w0) I) as H.
    unfold retry_loop in Hrun.
    destruct (attempts_from _ _ _ _ _ _ _ _ _) as [r fr].
    injection Hrun as -> <-. by apply H.
  - simpl in Hrun. discriminate.
Qed.

End SupervisorEdges.

Lemma convert_pub_to_html_no_attempts_witness :
  ∃ w0,
    convert_pub_to_html Demo.pathlib Demo.working "/in/a.pub" "/out" 7 0
                        Demo.fresh = (Raise (final_error 0 None), w0) ∧
    w_calls w0 = [].
Proof.
  eexists.
  refine (convert_pub_to_html_no_attempts Demo.pathlib Demo.working
            "/in/a.pub" "/out" 7 0 Demo.fresh _ "/out/a" _ _).
  - lia.
  - vm_compute. reflexivity.
Defined.

Lemma convert_pub_to_html_output_dir_blocked_witness :
  ∃ w',
    convert_pub_to_html Demo.pathlib Demo.working "/in/a.pub" "/out" 7 3
      (Demo.world_of (<["/out" := File]> (w_fs Demo.fresh)))
      = (Raise (raise_of FileExistsError "/out"), w') ∧
    w_calls w' = [] ∧ w_fs w' = <["/out" := File]> (w_fs Demo.fresh).
Proof.
  refine (convert_pub_to_html_output_dir_blocked Demo.pathlib Demo.working
            "/in/a.pub" "/out" 7 3
            (Demo.world_of (<["/out" := File]> (w_fs Demo.fresh))) _ _ _);
    vm_compute; reflexivity.
Defined.

Lemma convert_pub_to_html_returns_validated_witness :
  let run := convert_pub_to_html Demo.pathlib Demo.working "/in/a.pub" "/out"
                                 7 3 Demo.fresh in
  "/out/a.htm" = "/out/a.htm" ∧ already_converted (w_fs run.2) "/out/a" = true.
Proof.
  intros run.
  refine (convert_pub_to_html_returns_validated Demo.pathlib Demo.working
            "/in/a.pub" "/out" 7 3 Demo.fresh run.2 "/out/a.htm" _ _).
  - intros [] calls fs ps Hc; try discriminate; reflexivity.
  - vm_compute. reflexivity.
Defined.

(** ** More on the tree walker *)

(** A missing input root makes [convert_directory] raise
    [FileNotFoundError] before the tree is walked: nothing is counted,
    created or converted. *)
Theorem convert_directory_missing_root
    (pl : PathLib) (ext : External) (input_path output_path : string) (w : world) :
  fs_exists (w_fs w) (path_resolve pl input_path) = false →
  convert_directory pl ext input_path output_path w =
    (Raise (raise_of FileNotFoundError
              ("Input directory not found: " +:+ path_resolve pl input_path)),
     w).
Proof.
  intros H. unfold convert_directory, convert_directory_tally, bind,
    os_path_exists, throw. simpl. by rewrite H.
Qed.

Lemma convert_directory_missing_root_witness :
  convert_directory Demo.pathlib Demo.working "/nowhere" "/out" Demo.fresh =
    (Raise (raise_of FileNotFoundError "Input directory not found: /nowhere"),
     Demo.fresh).
Proof.
  apply (convert_directory_missing_root Demo.pathlib Demo.working "/nowhere"
           "/out" Demo.fresh).
  vm_compute. reflexivity.
Defined.

(** ** The exceptions that leave [convert_pub_to_html] *)

Section Escapes.

Context (pl : PathLib) (ext : External).

Abbreviation anything := (λ _ : frame, True).










End Escapes.


(** ** Macro security is forced before a document is opened *)

Lemma secured_from_app prev l c :
  secured_from prev (l ++ [c]) =
  secured_from prev l &&
  may_follow (match last l with Some x => Some x | None => prev end) c.
Proof.
  revert prev. induction l as [|x l IH]; intros prev; simpl.
  - by rewrite andb_true_r.
  - rewrite IH, andb_assoc, last_cons. by destruct (last l).
Qed.

Lemma secured_app_other l c :
  is_open c = false → secured (l ++ [c]) = secured l.
Proof.
  intros Hc. unfold secured. rewrite secured_from_app.
  destruct c; try discriminate; simpl; by rewrite andb_true_r.
Qed.

(** The rules of a frame invariant, for the calls selected by [sel]. *)
Ltac frame_keeps HI :=
  repeat first
    [ assumption
    | solve [auto]
    | lazymatch goal with
      | |- keeps _ (bind _ _) => apply keeps_bind; [|intros ?]
      | |- keeps _ (try_except _ _) => apply keeps_try_except; [|intros ?]
      | |- keeps _ (try_finally _ _) => apply keeps_try_finally
      | |- keeps _ (liftw _) => apply liftw_worldly
      | |- keeps _ (ret _) => apply keeps_ret
      | |- keeps _ (throw _) => apply keeps_throw
      | |- keeps _ get => apply keeps_get
      | |- keeps _ (validate_html _) => eapply validate_html_keeps; eauto
      | |- keeps _ (print _) => eapply returns_keeps, print_returns; eauto
      | |- keeps _ (eprint _) => eapply returns_keeps, eprint_returns; eauto
      | |- keeps _ (print_each _ _) =>
          eapply returns_keeps, print_each_returns; eauto
      | |- keeps _ kill_publisher_processes =>
          eapply returns_keeps, kill_publisher_processes_returns; eauto
      | |- keeps _ (method _ _ _ _) => eapply method_keeps; eauto
      | |- keeps _ (com _ _) => eapply (through_com _ _ _ HI); eauto
      | |- keeps _ (check_output_files _ _) =>
          eapply returns_keeps, check_output_files_returns; eauto
      | |- keeps _ (set_publisher _) => apply modify_worldly; done
      | |- keeps _ (set_doc _) => apply modify_worldly; done
      | |- keeps _ (set_last_error _) => apply modify_worldly; done
      | |- keeps _ (record_attempt _) => apply modify_worldly; done
      | |- keeps _ (λ fr, (_, fr)) => apply pure_worldly
      | |- keeps _ (match ?l with _ => _ end) => destruct l
      end ].

Section Secured.

Context (pl : PathLib) (ext : External).

Lemma secured_through :
  through ext (λ c, negb (is_open c)) secured_world.
Proof.
  split; try by intros ? w Hw.
  intros c Hc w Hw. unfold secured_world, com in *.
  destruct (respond ext c _ _ _) as [[[e|v] fs] ps]; simpl;
    rewrite secured_app_other; try done; by destruct (is_open c).
Qed.

Lemma set_security_secures publisher :
  hoare (worldly secured_world)
        (liftw (method ext publisher "AutomationSecurity"
                       (λ h, SetAutomationSecurity h 3)))
        (λ r fr, worldly secured_world fr ∧
                 ∀ a, r = Return a →
                      ∃ h, publisher = Some h ∧
                           just_secured h (f_world fr)).
Proof.
  intros fr Hfr. unfold worldly, secured_world, just_secured in *.
  destruct publisher as [h|]; simpl; [|done].
  unfold liftw, com.
  destruct (respond ext _ _ _ _) as [[[e|v] fs] ps]; simpl;
    rewrite secured_app_other by done; (split; [done|]); [done|].
  intros a _. exists h. by rewrite last_snoc.
Qed.

Lemma open_after_security h publisher path args :
  publisher = Some h →
  hoare (worldly (just_secured h))
        (liftw (method ext publisher "Open" (λ x, Open x path args)))
        (λ _, worldly secured_world).
Proof.
  intros -> fr [Hs Hl]. unfold worldly, secured_world in *. simpl.
  unfold liftw, com.
  destruct (respond ext _ _ _ _) as [[[e|v] fs] ps]; simpl;
    unfold secured in *; rewrite secured_from_app, Hs, Hl; simpl;
    by rewrite Nat.eqb_refl.
Qed.

Lemma attempt_try_secured pub_path output_base fmt retries attempt :
  keeps (worldly secured_world)
        (attempt_try pl ext pub_path output_base fmt retries attempt).
Proof.
  pose proof secured_through as T.
  unfold attempt_try.
  apply keeps_bind; [frame_keeps T|intros _].
  apply keeps_bind; [frame_keeps T|intros _].
  apply keeps_bind; [frame_keeps T|intros publisher].
  apply keeps_bind; [frame_keeps T|intros _].
  eapply hoare_bind; [apply set_security_secures| |by intros e fr [? _]].
  intros a fr [Hfr Ha]. destruct (Ha a eq_refl) as (h & -> & Hj).
  revert fr Hj Hfr Ha.
  assert (hoare (worldly (just_secured h))
            (liftw (print "Opening document...") >>
             let! doc := liftw (method ext (Some h) "Open"
                                  (λ x, Open x (path_absolute pl pub_path)
                                             [false; false])) in
             set_doc doc >>
             liftw (print "Saving as HTML...") >>
             liftw (method ext doc "SaveAs"
                           (λ x, SaveAs x (path_absolute pl output_base) fmt)) >>
             liftw (print "Checking created files...") >>
             let! created_files := liftw (check_output_files pl output_base) in
             liftw (match created_files with
                    | [] => print "No files were created"
                    | _ => print "Created files:" >> print_each "- " created_files
                    end) >>
             liftw (print "Validating HTML...") >>
             liftw (validate_html output_base) >>
             ret (output_base +:+ ".htm"))
            (λ _, worldly secured_world)) as H.
  { apply returns_then.
    { intros fr Hfr. split; [done|]. by exists tt. }
    intros _. eapply hoare_bind; [by apply open_after_security| |done].
    intros doc. change (keeps (worldly secured_world)
      (set_doc doc >>
       liftw (print "Saving as HTML...") >>
       liftw (method ext doc "SaveAs"
                     (λ x, SaveAs x (path_absolute pl output_base) fmt)) >>
       liftw (print "Checking created files...") >>
       let! created_files := liftw (check_output_files pl output_base) in
       liftw (match created_files with
              | [] => print "No files were created"
              | _ => print "Created files:" >> print_each "- " created_files
              end) >>
       liftw (print "Validating HTML...") >>
       liftw (validate_html output_base) >>
       ret (output_base +:+ ".htm"))).
    frame_keeps T. }
  intros fr Hj _ _. by apply H.
Qed.

Lemma attempt_once_secured pub_path output_base fmt retries attempt :
  keeps (worldly secured_world)
        (attempt_once pl ext pub_path output_base fmt retries attempt).
Proof.
  pose proof secured_through as T.
  pose proof (attempt_try_secured pub_path output_base fmt retries attempt).
  unfold attempt_once, attempt_except, attempt_finally, release.
  frame_keeps T.
Qed.

Lemma attempts_from_secured pub_path output_base fmt retries n attempt :
  keeps (worldly secured_world)
        (attempts_from pl ext pub_path output_base fmt retries n attempt).
Proof.
  revert attempt. induction n as [|n IH]; intros attempt; simpl.
  - by intros fr Hfr.
  - apply keeps_bind; [apply attempt_once_secured|].
    intros [p| |]; [apply keeps_ret|by intros fr Hfr|apply IH].
Qed.

(** [convert_pub_to_html] never opens a document without having set
    [AutomationSecurity] to 3 (macros disabled) on the same instance in the
    call just before: a history of calls with this property keeps it. *)
Theorem convert_pub_to_html_secured
    (pub_path output_dir : string) (format_constant max_retries : Z) (w : world) :
  secured (w_calls w) = true →
  secured (w_calls (convert_pub_to_html pl ext pub_path output_dir
                      format_constant max_retries w).2) = true.
Proof.
  intros Hw. unfold convert_pub_to_html, convert_pub_to_html_frame.
  destruct (convert_prelude pl pub_path output_dir w) as [r w0] eqn:E.
  destruct (convert_prelude_calls pl _ _ _ _ _ E) as [Hc _].
  destruct r as [[p|ob]|e]; simpl; try by rewrite Hc.
  pose proof (attempts_from_secured (path_resolve pl pub_path) ob
                format_constant max_retries (Z.to_nat max_retries) 0
                (initial_frame w0)) as H.
  unfold retry_loop. destruct (attempts_from _ _ _ _ _ _ _ _ _) as [r fr].
  apply H. unfold worldly, secured_world. simpl. by rewrite Hc.
Qed.

End Secured.

Lemma convert_pub_to_html_secured_witness :
  secured (w_calls (convert_pub_to_html Demo.pathlib Demo.working "/in/a.pub"
                      "/out" 7 3 Demo.fresh).2) = true.
Proof.
  apply (convert_pub_to_html_secured Demo.pathlib Demo.working "/in/a.pub"
           "/out" 7 3 Demo.fresh).
  reflexivity.
Defined.

(** ** A second run of the tree walker *)

Section Rerun.

Context (pl : PathLib) (ext : External).

(** [convert_directory], up to the loop of pass 2 and after it. *)
Lemma convert_directory_tally_run input_path output_path w :
  let root := path_resolve pl input_path in
  let triples := os_walk pl (w_fs w) root in
  path_resolve pl root = root →
  fs_exists (w_fs w) root = true →
  ∃ w2,
    quiet w w2 ∧
    if (count_matching triples =? 0)%Z
    then ∃ w4, convert_directory_tally pl ext input_path output_path w
                 = (Return (Tally 0 0 []), w4) ∧ quiet w w4
    else ∀ r w3,
        convert_dirs pl ext (count_matching triples) root
                     (path_resolve pl output_path) triples (Tally 0 0 []) w2
          = (r, w3) →
        ∃ w4, convert_directory_tally pl ext input_path output_path w = (r, w4) ∧
              quiet w3 w4.
Proof.
  intros root triples Hroot Hex.
  unfold convert_directory_tally, count_pub_files, walk, bind, print, modify,
    os_path_exists, ret. fold root. rewrite Hroot. simpl. rewrite Hex. simpl.
  fold triples.
  destruct (count_matching triples =? 0)%Z eqn:Hz.
  - exists w. split; [|eexists; split; [done|]]; by repeat split.
  - simpl. fold triples.
    match goal with
    | |- context [convert_dirs _ _ _ _ _ _ _ ?x] => exists x
    end.
    split; [by repeat split|].
    intros r w3 E. rewrite E. destruct r as [t|e]; eexists; (split; [done|]);
      by repeat split.
Qed.

Section Loops.

Context (outputs dirs : list string) (calls : list com_call)
        (procs : list process).

Abbreviation inv := (settled outputs dirs calls procs).

Lemma settled_print line : returns inv (print line).
Proof. intros w Hw. split; [exact Hw|by exists tt]. Qed.

Lemma settled_makedirs p : p ∈ dirs → returns inv (os_makedirs p).
Proof.
  intros Hp w (Hout & Hclear & Hc & Hps).
  destruct (clear_makedirs_returns dirs p Hp w Hclear) as [Hclear' Hr].
  split; [|exact Hr]. repeat split; try done.
  - intros ob Hob. specialize (Hout ob Hob). unfold os_makedirs.
    destruct (w_fs w !! p) as [[|l]|] eqn:E; simpl; try done.
    by apply already_converted_insert.
  - unfold os_makedirs. by destruct (w_fs w !! p) as [[|l]|].
  - unfold os_makedirs. by destruct (w_fs w !! p) as [[|l]|].
Qed.

Lemma convert_files_all_skipped total current_dir out_dir files :
  (∀ f, f ∈ files → path_join pl out_dir (path_stem pl f) ∈ outputs) →
  ∀ t0,
    hoare inv (convert_files pl ext total current_dir out_dir files t0)
          (λ r w, inv w ∧
                  ∃ t, r = Return t ∧
                       files_skipped t =
                         (files_skipped t0 + Z.of_nat (List.length files))%Z ∧
                       files_converted t = files_converted t0).
Proof.
  induction files as [|file rest IH]; intros Hall t0 w Hw.
  - split; [done|]. exists t0. simpl. repeat split; lia.
  - cbn [convert_files].
    set (ob := path_join pl out_dir (path_stem pl file)).
    destruct (check_output_exists_run ob w) as (v & Hcheck & Hv).
    rewrite (bind_pure (note_visit ob t0) _ w _ eq_refl).
    rewrite (bind_pure (check_output_exists ob) _ w v Hcheck).
    cbn [files_converted files_skipped visited].
    assert (truthy v = true) as ->.
    { rewrite Hv. apply Hw. apply Hall. set_solver. }
    match goal with
    | |- context [convert_files _ _ _ _ _ rest ?t] => set (t1 := t)
    end.
    match goal with
    | |- context [(?m w).1] =>
        assert (hoare inv m
                  (λ r w, inv w ∧
                          ∃ t, r = Return t ∧
                               files_skipped t =
                                 (files_skipped t1
                                  + Z.of_nat (List.length rest))%Z ∧
                               files_converted t = files_converted t1)) as H
    end.
    { do 2 (apply returns_then; [apply settled_print|intros _]).
      apply IH. intros f Hf. apply Hall. set_solver. }
    destruct (H w Hw) as [Hinv (t & Hr & Hs & Hc)]. split; [exact Hinv|].
    exists t. split; [exact Hr|]. simpl in *. split; lia.
Qed.

Lemma convert_dirs_all_skipped total input output triples :
  (∀ d, d ∈ mirror_dirs pl input output triples → d ∈ dirs) →
  (∀ ob, ob ∈ output_bases pl input output triples → ob ∈ outputs) →
  ∀ t0,
    hoare inv (convert_dirs pl ext total input output triples t0)
          (λ r w, inv w ∧
                  ∃ t, r = Return t ∧
                       files_skipped t =
                         (files_skipped t0 + Z.of_nat (matching triples))%Z ∧
                       files_converted t = files_converted t0).
Proof.
  induction triples as [|[[root ds] files] rest IH]; intros Hsub Hobs t0.
  - intros w Hw. split; [done|]. exists t0. unfold matching. simpl.
    repeat split; lia.
  - rewrite mirror_dirs_cons in Hsub. simpl in Hsub.
    unfold output_bases in Hobs. simpl in Hobs.
    cbn [convert_dirs].
    do 2 (apply returns_then; [apply settled_print|intros _]).
    eapply hoare_bind
      with (R := λ r w, inv w ∧
                        ∃ t, r = Return t ∧
                             files_skipped t =
                               (files_skipped t0
                                + Z.of_nat (List.length (filter is_pub files)))%Z ∧
                             files_converted t = files_converted t0).
    + destruct (filter is_pub files) as [|f fs] eqn:E.
      * intros w Hw. split; [done|]. exists t0. simpl. repeat split; lia.
      * apply returns_then.
        { apply settled_makedirs. apply Hsub.
          destruct (decide (f :: fs ≠ [])) as [_|n]; [|by destruct n].
          apply elem_of_app. left. apply list_elem_of_here. }
        intros _. apply convert_files_all_skipped.
        intros g Hg. apply Hobs. apply elem_of_app. left.
        rewrite map_fmap. apply list_elem_of_fmap. eauto.
    + intros t1 w [Hw (? & [= <-] & Hs1 & Hc1)].
      assert (∀ d, d ∈ mirror_dirs pl input output rest → d ∈ dirs) as Hrest
        by (intros d Hd; apply Hsub, elem_of_app; by right).
      assert (∀ ob, ob ∈ output_bases pl input output rest → ob ∈ outputs)
        as Hobs' by (intros ob Hob; apply Hobs, elem_of_app; by right).
      destruct (IH Hrest Hobs' t1 w Hw) as [Hw' (t & Hr & Hs & Hc)].
      split; [done|]. exists t. split; [done|].
      change (matching ((root, ds, files) :: rest))
        with (List.length (filter is_pub files) + matching rest)%nat.
      split; lia.
    + by intros e w [_ (t & [=] & _)].
Qed.

End Loops.

(** Run over a tree whose matching files all have their output in place,
    [convert_directory] skips every file: it returns [(0, N)] without a
    single automation call and without touching the process table,
    whatever the application would do. *)
Theorem convert_directory_all_skipped (input_path output_path : string) (w : world) :
  let root := path_resolve pl input_path in
  let triples := os_walk pl (w_fs w) root in
  path_resolve pl root = root →
  fs_exists (w_fs w) root = true →
  clear_of_files
    (mirror_dirs pl root (path_resolve pl output_path) triples) (w_fs w) →
  (∀ ob, ob ∈ output_bases pl root (path_resolve pl output_path) triples →
         already_converted (w_fs w) ob = true) →
  ∃ w',
    convert_directory pl ext input_path output_path w
      = (Return (0%Z, count_matching triples), w') ∧
    w_calls w' = w_calls w ∧ w_procs w' = w_procs w.
Proof.
  intros root triples Hroot Hex Hclear Hout.
  destruct (convert_directory_tally_run input_path output_path w Hroot Hex)
    as (w2 & (Hfs & Hc & Hp & Hm) & Hrun).
  fold root triples in Hrun.
  unfold convert_directory, bind.
  destruct (count_matching triples =? 0)%Z eqn:Hz.
  - destruct Hrun as (w4 & -> & (? & ? & ? & ?)).
    apply Z.eqb_eq in Hz. rewrite Hz. exists w4. by repeat split.
  - destruct (convert_dirs pl ext (count_matching triples) root
                (path_resolve pl output_path) triples (Tally 0 0 []) w2)
      as [r w3] eqn:E.
    pose proof (convert_dirs_all_skipped
                  (output_bases pl root (path_resolve pl output_path) triples)
                  (mirror_dirs pl root (path_resolve pl output_path) triples)
                  (w_calls w) (w_procs w)
                  (count_matching triples) root (path_resolve pl output_path)
                  triples (λ d Hd, Hd) (λ ob Hob, Hob) (Tally 0 0 []) w2) as H.
    rewrite E in H. simpl in H.
    destruct H as [(_ & _ & Hc3 & Hp3) (t & -> & Hs & Hcv)].
    { repeat split; try done; by rewrite Hfs. }
    destruct (Hrun _ _ eq_refl) as (w4 & -> & (? & ? & ? & ?)).
    exists w4. simpl in Hs, Hcv. rewrite matching_count, Hcv.
    assert (files_skipped t = Z.of_nat (matching triples)) as -> by lia.
    repeat split; congruence.
Qed.

(** The entry point of the tree walker exits with status 0 whenever the
    input root exists and nothing stands or is put in the way of the output
    directories: what the application does, and so the failure of any
    conversion, does not change the exit status. *)
Theorem tree_main_exit_status (input_path output_path : string) (w : world) :
  let root := path_resolve pl input_path in
  let triples := os_walk pl (w_fs w) root in
  let out_dirs := mirror_dirs pl root (path_resolve pl output_path) triples in
  path_resolve pl root = root →
  fs_exists (w_fs w) root = true →
  clear_of_files out_dirs (w_fs w) →
  keeps_clear ext out_dirs →
  (Convert_tree_to_pub_py.main pl ext input_path output_path w).1 = 0%Z.
Proof.
  intros root triples out_dirs Hroot Hex Hclear Hext.
  assert (∃ t w', convert_directory_tally pl ext input_path output_path
                    (print ("Starting conversion from " +:+ input_path
                              +:+ " to " +:+ output_path) w).2
                  = (Return t, w')) as (t & w' & E).
  { set (w1 := (print _ w).2).
    destruct (convert_directory_tally_run input_path output_path w1 Hroot Hex)
      as (w2 & (Hfs & _) & Hrun).
    change (w_fs w1) with (w_fs w) in *. fold root triples in Hrun.
    destruct (count_matching triples =? 0)%Z.
    - destruct Hrun as (w4 & -> & _). eauto.
    - destruct (convert_dirs pl ext (count_matching triples) root
                  (path_resolve pl output_path) triples (Tally 0 0 []) w2)
        as [r w3] eqn:Ed.
      pose proof (convert_dirs_hoare pl ext out_dirs Hext
                    (count_matching triples) root (path_resolve pl output_path)
                    triples (λ d Hd, Hd) (Tally 0 0 []) w2) as H.
      rewrite Ed in H. simpl in H. destruct H as [_ (t & new & -> & _)].
      { unfold clear_world. by rewrite Hfs. }
      destruct (Hrun _ _ eq_refl) as (w4 & -> & _). eauto. }
  unfold Convert_tree_to_pub_py.main, try_except, convert_directory.
  unfold bind at 1. cbn [print modify fst snd] in *.
  unfold bind at 1. unfold bind at 1. rewrite E. done.
Qed.

End Rerun.

Lemma convert_directory_all_skipped_witness :
  let w := Demo.world_of
             (<["/out/a_files" := Dir ["image001.png"]]>
                (<["/out/a.htm" := File]> (w_fs Demo.tree))) in
  ∃ w',
    convert_directory Demo.pathlib Demo.working "/in" "/out" w
      = (Return (0%Z, 2%Z), w') ∧
    w_calls w' = [] ∧ w_procs w' = [].
Proof.
  intros w.
  refine (convert_directory_all_skipped Demo.pathlib Demo.working "/in" "/out"
            w _ _ _ _).
  - reflexivity.
  - vm_compute. reflexivity.
  - intros d Hd. vm_compute in Hd.
    apply list_elem_of_In in Hd. destruct Hd as [<-|[]].
    vm_compute. discriminate.
  - intros ob Hob. vm_compute in Hob.
    apply list_elem_of_In in Hob. destruct Hob as [<-|[<-|[]]];
      vm_compute; reflexivity.
Defined.

Lemma tree_main_exit_status_witness :
  (Convert_tree_to_pub_py.main Demo.pathlib
     (Demo.failing_dispatch Demo.other_com_error) "/in" "/out" Demo.tree).1
  = 0%Z.
Proof.
  refine (tree_main_exit_status Demo.pathlib
            (Demo.failing_dispatch Demo.other_com_error) "/in" "/out"
            Demo.tree _ _ _ _).
  - reflexivity.
  - vm_compute. reflexivity.
  - intros d Hd. vm_compute in Hd.
    apply list_elem_of_In in Hd. destruct Hd as [<-|[]].
    vm_compute. discriminate.
  - intros c calls fs ps Hfs. by destruct c.
Defined.

(** ** The format-probing tool *)

Section ProbingMore.

Context (pl : PathLib) (ext : External) (pr : Probe).

Lemma py_range_bounds start stop z :
  z ∈ py_range start stop → (start ≤ z < stop)%Z.
Proof.
  unfold py_range. rewrite map_fmap.
  intros (i & -> & Hi)%list_elem_of_fmap.
  apply list_elem_of_In, in_seq in Hi. lia.
Qed.

Lemma probe_each_run pub_path output_dir constants :
  ∀ results w,
    ∃ new,
      (probe_each pl ext pr pub_path output_dir constants results w).1
        = Return (results ++ new)%list ∧
      Forall (λ r, interesting r = true) new ∧
      sublist (map r_constant new) constants.
Proof.
  induction constants as [|k rest IH]; intros results w.
  - exists []. simpl. by rewrite app_nil_r.
  - cbn [probe_each]. unfold bind at 1.
    pose proof (test_format_constant_result pl ext pr pub_path output_dir k w)
      as E.
    destruct (test_format_constant pl ext pr pub_path output_dir k w)
      as [r w1]. simpl in E. subst r.
    match goal with
    | |- context [interesting ?res] => set (result := res)
    end.
    assert (r_constant result = k) as Hk by (unfold result; by destruct (probe_outcome _ _ _ _ _ _ _)).
    destruct (interesting result) eqn:Hi.
    + destruct (IH (results ++ [result])%list w1) as (new & -> & Hall & Hsub).
      exists (result :: new). rewrite <- app_assoc. split; [done|].
      split; [by constructor|]. simpl. rewrite Hk. by constructor.
    + destruct (IH results w1) as (new & -> & Hall & Hsub).
      exists new. split; [done|]. split; [done|]. by constructor.
Qed.

(** The results [explore_format_constants] keeps are interesting ones, and
    their constants are constants of [start..end] in increasing order, each
    at most once; with [end] below [start] nothing is probed and nothing is
    kept. *)
Theorem explore_format_constants_results
    (pub_path output_dir : string) (start end_ : Z) (w w' : world)
    (results : list probe_result) :
  explore_format_constants pl ext pr pub_path output_dir start end_ w
    = (Return results, w') →
  Forall (λ r, interesting r = true ∧ (start ≤ r_constant r ≤ end_)%Z) results ∧
  sublist (map r_constant results) (py_range start (end_ + 1)) ∧
  ((end_ < start)%Z → results = []).
Proof.
  unfold explore_format_constants, bind, print, modify. simpl.
  match goal with
  | |- context [probe_each _ _ _ _ _ ?cs ?rs ?x] =>
      destruct (probe_each_run pub_path output_dir cs rs x)
        as (new & E & Hall & Hsub);
      destruct (probe_each pl ext pr pub_path output_dir cs rs x) as [r w1]
  end.
  simpl in E. subst r. simpl.
  destruct (clean_output_dir pl output_dir w1) as [[[]|e] w2]; [|done].
  intros [= <- <-]. split; [|split; [done|]].
  - apply Forall_forall. intros r Hr. split.
    + by apply (proj1 (Forall_forall _ _) Hall).
    + assert (r_constant r ∈ py_range start (end_ + 1)) as Hin.
      { eapply elem_of_sublist; [|exact Hsub].
        rewrite map_fmap. apply list_elem_of_fmap. eauto. }
      apply py_range_bounds in Hin. lia.
  - intros Hlt. unfold py_range in Hsub.
    replace (Z.to_nat (end_ + 1 - start)) with 0%nat in Hsub by lia.
    simpl in Hsub. apply sublist_nil_r in Hsub. by destruct new.
Qed.

Lemma clean_output_dir_no_dir output_dir w e :
  fs_listdir (w_fs w) output_dir = Raise e →
  clean_output_dir pl output_dir w = (Raise e, w).
Proof.
  intros E. unfold clean_output_dir, bind, os_listdir. by rewrite E.
Qed.

Lemma test_format_constant_no_dir pub_path output_dir k w e :
  fs_listdir (w_fs w) output_dir = Raise e →
  test_format_constant pl ext pr pub_path output_dir k w =
    (Return (ProbeResult k [] (Some (probe_error e))), w).
Proof.
  intros E.
  assert (probe_try pl ext pr pub_path output_dir k (initial_frame w)
          = (Raise e, initial_frame w)) as Htry.
  { unfold probe_try. unfold bind at 1. unfold liftw at 1. simpl.
    by rewrite (clean_output_dir_no_dir _ _ _ E). }
  unfold test_format_constant, try_finally, try_except. unfold bind at 1.
  rewrite Htry. done.
Qed.

(** Without an output directory to list, [explore_format_constants] probes
    nothing: every constant only records the error of [os.listdir], no
    automation call is made, the filesystem stays as it is, and the
    [clean_output_dir] after the loop, which no [try] block holds, raises
    that error. *)
Theorem explore_format_constants_no_dir
    (pub_path output_dir : string) (start end_ : Z) (w : world) (e : exn) :
  fs_listdir (w_fs w) output_dir = Raise e →
  ∃ w',
    explore_format_constants pl ext pr pub_path output_dir start end_ w
      = (Raise e, w') ∧
    w_calls w' = w_calls w ∧ w_fs w' = w_fs w.
Proof.
  intros E. unfold explore_format_constants, bind, print, modify. simpl.
  match goal with
  | |- context [probe_each _ _ _ _ _ ?cs ?rs ?y] => set (x := y)
  end.
  assert (fs_listdir (w_fs x) output_dir = Raise e) as Ex by exact E.
  assert (∀ cs rs, ∃ rs',
            probe_each pl ext pr pub_path output_dir cs rs x
            = (Return rs', x)) as H.
  { induction cs as [|k cs IH]; intros rs; [by eexists|].
    cbn [probe_each]. unfold bind at 1.
    rewrite (test_format_constant_no_dir pub_path output_dir k x e Ex).
    apply IH. }
  destruct (H (py_range start (end_ + 1)) []) as (rs' & ->).
  rewrite (clean_output_dir_no_dir output_dir x e Ex). eauto.
Qed.

Section Gitkeep.

Context (output_dir : string) (kept : option node) (listed : Prop).

Lemma remove_entry_keeps_gitkeep item :
  item ≠ ".gitkeep" →
  (path_join pl output_dir item = path_join pl output_dir ".gitkeep" →
   item = ".gitkeep") →
  path_join pl output_dir item ≠ output_dir →
  path_join pl output_dir ".gitkeep" ≠ output_dir →
  keeps (gitkeep_kept pl output_dir kept listed)
        (remove_entry pl output_dir item).
Proof.
  intros Hitem Hinj Hne Hgk w [Hk (l & Hl & Hin)].
  unfold remove_entry, gitkeep_kept. simpl.
  rewrite lookup_delete_ne by done. rewrite Hl.
  rewrite lookup_insert_ne by done.
  rewrite lookup_delete_ne by (intros E; by apply Hitem, Hinj).
  split; [done|]. eexists. rewrite lookup_insert_eq. split; [done|].
  intros Hli. apply list_elem_of_filter. split; [congruence|by apply Hin].
Qed.

Lemma clean_items_keep_gitkeep items :
  (∀ item, item ∈ items →
     (path_join pl output_dir item = path_join pl output_dir ".gitkeep" →
      item = ".gitkeep") ∧
     path_join pl output_dir item ≠ output_dir) →
  path_join pl output_dir ".gitkeep" ≠ output_dir →
  keeps (gitkeep_kept pl output_dir kept listed)
    (fold_right
       (λ item k,
          (if String.eqb item ".gitkeep" then ret tt
           else
             let path := path_join pl output_dir item in
             λ w, if fs_isfile (w_fs w) path || fs_isdir (w_fs w) path
                  then remove_entry pl output_dir item w
                  else (Return tt, w)) >> k)
       (ret tt) items).
Proof.
  intros Hitems Hgk. induction items as [|item items IH]; simpl.
  - apply keeps_ret.
  - apply keeps_bind.
    + destruct (String.eqb_spec item ".gitkeep") as [->|Hne];
        [apply keeps_ret|].
      destruct (Hitems item) as [Hinj Hd]; [apply list_elem_of_here|].
      intros w Hw.
      destruct (fs_isfile (w_fs w) _ || fs_isdir (w_fs w) _); [|done].
      by apply remove_entry_keeps_gitkeep.
    + intros _. apply IH. intros x Hx. apply Hitems. by apply list_elem_of_further.
Qed.

End Gitkeep.

(** [clean_output_dir] never removes [.gitkeep]: the entry is in the
    filesystem afterwards as it was before, and still listed in the
    directory. The names listed are taken to be joined to the directory
    path without clashing with [.gitkeep] or with the directory itself. *)
Theorem clean_output_dir_keeps_gitkeep (output_dir : string) (w : world)
    (l : list string) :
  w_fs w !! output_dir = Some (Dir l) →
  (∀ item, item ∈ l →
     (path_join pl output_dir item = path_join pl output_dir ".gitkeep" →
      item = ".gitkeep") ∧
     path_join pl output_dir item ≠ output_dir) →
  path_join pl output_dir ".gitkeep" ≠ output_dir →
  let w' := (clean_output_dir pl output_dir w).2 in
  w_fs w' !! path_join pl output_dir ".gitkeep" =
    w_fs w !! path_join pl output_dir ".gitkeep" ∧
  ∃ l', w_fs w' !! output_dir = Some (Dir l') ∧
        (".gitkeep" ∈ l → ".gitkeep" ∈ l').
Proof.
  intros Hl Hitems Hgk w'.
  pose proof (clean_items_keep_gitkeep output_dir
                (w_fs w !! path_join pl output_dir ".gitkeep")
                (".gitkeep" ∈ l) l Hitems Hgk w) as H.
  unfold gitkeep_kept in H. subst w'.
  unfold clean_output_dir.
  rewrite (bind_pure (os_listdir output_dir) _ w l)
    by (unfold os_listdir, fs_listdir; by rewrite Hl).
  exact (H (conj eq_refl (ex_intro _ l (conj Hl (λ x, x))))).
Qed.

End ProbingMore.

Lemma explore_format_constants_results_witness :
  let run := explore_format_constants Demo.pathlib Demo.working Demo.probe
               "/in/a.pub" "/out" 7 8 Demo.probing in
  ∃ results,
    run.1 = Return results ∧
    Forall (λ r, interesting r = true ∧ (7 ≤ r_constant r ≤ 8)%Z) results ∧
    sublist (map r_constant results) (py_range 7 (8 + 1)) ∧
    ((8 < 7)%Z → results = []).
Proof.
  intros run. eexists. split; [vm_compute; reflexivity|].
  refine (explore_format_constants_results Demo.pathlib Demo.working
            Demo.probe "/in/a.pub" "/out" 7 8 Demo.probing run.2 _ _).
  vm_compute. reflexivity.
Defined.

Lemma explore_format_constants_no_dir_witness :
  ∃ w',
    explore_format_constants Demo.pathlib Demo.working Demo.probe
      "/in/a.pub" "/out" 1 100 Demo.fresh
      = (Raise (raise_of FileNotFoundError "/out"), w') ∧
    w_calls w' = [] ∧ w_fs w' = w_fs Demo.fresh.
Proof.
  refine (explore_format_constants_no_dir Demo.pathlib Demo.working Demo.probe
            "/in/a.pub" "/out" 1 100 Demo.fresh _ _).
  vm_compute. reflexivity.
Defined.

Lemma clean_output_dir_keeps_gitkeep_witness :
  let w' := (clean_output_dir Demo.pathlib "/out" Demo.probing).2 in
  w_fs w' !! "/out/.gitkeep" = Some File ∧
  ∃ l', w_fs w' !! "/out" = Some (Dir l') ∧
        (".gitkeep" ∈ [".gitkeep"; "a.htm"] → ".gitkeep" ∈ l').
Proof.
  refine (clean_output_dir_keeps_gitkeep Demo.pathlib "/out" Demo.probing
            [".gitkeep"; "a.htm"] _ _ _).
  - vm_compute. reflexivity.
  - intros item Hin. apply list_elem_of_In in Hin.
    destruct Hin as [<-|[<-|[]]]; split; vm_compute; try done;
      intros [=].
  - vm_compute. intros [=].
Defined.

(** The page of the earlier run is removed by the same call. *)
Example clean_output_dir_runs :
  let w' := (clean_output_dir Demo.pathlib "/out" Demo.probing).2 in
  w_fs w' !! "/out/a.htm" = None ∧ w_fs w' !! "/out" = Some (Dir [".gitkeep"]).
Proof. vm_compute. done. Qed.

(** ** The extension test *)

Lemma string_length_app a b :
  String.length (a +:+ b) = (String.length a + String.length b)%nat.
Proof. induction a as [|c a IH]; simpl; [done|]. by rewrite IH. Qed.

Lemma map_chars_app f a b :
  PyStr.map_chars f (a +:+ b) = PyStr.map_chars f a +:+ PyStr.map_chars f b.
Proof. induction a as [|c a IH]; simpl; [done|]. by rewrite IH. Qed.

Lemma map_chars_length f s :
  String.length (PyStr.map_chars f s) = String.length s.
Proof. induction s as [|c s IH]; simpl; [done|]. by rewrite IH. Qed.

Lemma substring_all s : String.substring 0 (String.length s) s = s.
Proof. induction s as [|c s IH]; simpl; [done|]. by rewrite IH. Qed.

Lemma substring_skip p s m :
  String.substring (String.length p) m (p +:+ s) = String.substring 0 m s.
Proof. induction p as [|c p IH]; simpl; [done|]. exact IH. Qed.

Lemma substring_split s k :
  (k ≤ String.length s)%nat →
  s = String.substring 0 k s +:+ String.substring k (String.length s - k) s.
Proof.
  revert k. induction s as [|c s IH]; intros k Hk; simpl in *.
  - by destruct k.
  - destruct k as [|k]; simpl.
    + by rewrite substring_all.
    + change (String c s = String c (String.substring 0 k s
                +:+ String.substring k (String.length s - k) s)).
      f_equal. apply IH. lia.
Qed.

Lemma substring_length s k n :
  (k + n ≤ String.length s)%nat →
  String.length (String.substring k n s) = n.
Proof.
  revert k n. induction s as [|c s IH]; intros k n Hk; simpl in *.
  - destruct k, n; simpl; lia.
  - destruct k as [|k]; simpl.
    + destruct n as [|n]; simpl; [done|]. f_equal.
      apply (IH 0%nat n). lia.
    + apply IH. lia.
Qed.

Lemma string_app_inv a b a' b' :
  String.length a = String.length a' →
  a +:+ b = a' +:+ b' → a = a' ∧ b = b'.
Proof.
  revert a'. induction a as [|c a IH]; intros [|c' a'] Hl; simpl in *;
    try done.
  intros [= -> E]. destruct (IH a') as [-> ->]; [lia|done|done].
Qed.

Lemma endswith_iff s suf :
  PyStr.endswith s suf = true ↔ ∃ p, s = p +:+ suf.
Proof.
  unfold PyStr.endswith. split.
  - intros [Hle Heq]%andb_true_iff. apply Nat.leb_le in Hle.
    apply String.eqb_eq in Heq.
    exists (String.substring 0 (String.length s - String.length suf) s).
    etrans;
      [apply (substring_split s (String.length s - String.length suf)); lia|].
    f_equal.
    replace (String.length s - (String.length s - String.length suf))%nat
      with (String.length suf) by lia.
    exact Heq.
  - intros [p ->]. rewrite string_length_app. apply andb_true_iff. split.
    + apply Nat.leb_le. lia.
    + apply String.eqb_eq.
      replace (String.length p + String.length suf - String.length suf)%nat
        with (String.length p) by lia.
      by rewrite substring_skip, substring_all.
Qed.

(** A file name is taken for a Publisher file exactly when it ends with
    four characters whose lower case is [.pub]: the letter case of the
    extension does not matter, and the rest of the name is not looked at. *)
Theorem is_pub_iff (f : string) :
  is_pub f = true ↔ ∃ stem e, f = stem +:+ e ∧ PyStr.lower e = ".pub".
Proof.
  unfold is_pub. rewrite endswith_iff. unfold PyStr.lower. split.
  - intros [p Hp].
    assert (String.length f = String.length p + 4)%nat as Hlen.
    { rewrite <- (map_chars_length PyStr.char_lower f), Hp, string_length_app.
      done. }
    exists (String.substring 0 (String.length f - 4) f),
           (String.substring (String.length f - 4) 4 f).
    assert (f = String.substring 0 (String.length f - 4) f
                +:+ String.substring (String.length f - 4) 4 f) as Hsplit.
    { etrans; [apply (substring_split f (String.length f - 4)); lia|].
      f_equal. f_equal. lia. }
    split; [exact Hsplit|].
    rewrite Hsplit, map_chars_app in Hp.
    apply string_app_inv in Hp as [_ Hp]; [exact Hp|].
    rewrite map_chars_length, substring_length by lia. lia.
  - intros (stem & e & -> & He).
    exists (PyStr.map_chars PyStr.char_lower stem).
    by rewrite map_chars_app, He.
Qed.
